(** * astrbot_plugin_welcome: a shallow embedding of [main.py]

    The plugin keeps one dictionary, [group_welcomes], from group
    identifiers to welcome texts, persists it as a JSON file, answers
    "member joined" notices with the text of the group and offers two
    administrator commands to set and to view that text.

    Layout of this file:
    - Python strings as lists of code points, [str.strip];
    - the values [json.load] can return, and dictionaries in insertion order;
    - [json.dump] (indent 2, [ensure_ascii=False]) as the list of chunks it
      writes, and [json.load] as a recursive-descent decoder;
    - a state, exception and output monad for the methods of [WelcomePlugin];
    - the methods themselves, in the order of the source;
    - the reachable states of the plugin and the properties of the
      specification. *)

From Stdlib Require Import List NArith ZArith Bool String Ascii Lia DecimalPos.
Import ListNotations.

Set Implicit Arguments.

Local Open Scope N_scope.

(** ** Python strings *)

(** A Python [str] is a sequence of code points. *)
Definition char := N.
Definition pystr := list char.

Fixpoint bytes_of (s : string) : list N :=
  match s with
  | EmptyString => []
  | String a r => N_of_ascii a :: bytes_of r
  end.

(** The literals of [main.py] are UTF-8 text; [utf8] decodes the bytes of a
    literal of this file to the code points Python sees. *)
Fixpoint utf8 (b : list N) : pystr :=
  match b with
  | [] => []
  | b0 :: r =>
      if b0 <? 0x80 then b0 :: utf8 r
      else if b0 <? 0xE0 then
        match r with
        | b1 :: r' => ((b0 mod 0x20) * 0x40 + b1 mod 0x40) :: utf8 r'
        | _ => []
        end
      else if b0 <? 0xF0 then
        match r with
        | b1 :: b2 :: r' =>
            ((b0 mod 0x10) * 0x1000 + (b1 mod 0x40) * 0x40 + b2 mod 0x40)
              :: utf8 r'
        | _ => []
        end
      else
        match r with
        | b1 :: b2 :: b3 :: r' =>
            ((b0 mod 0x8) * 0x40000 + (b1 mod 0x40) * 0x1000
             + (b2 mod 0x40) * 0x40 + b3 mod 0x40) :: utf8 r'
        | _ => []
        end
  end.

Definition u (s : string) : pystr := utf8 (bytes_of s).

Fixpoint pystr_eqb (a b : pystr) : bool :=
  match a, b with
  | [], [] => true
  | x :: a', y :: b' => (x =? y) && pystr_eqb a' b'
  | _, _ => false
  end.

(** [str.isspace] on one code point: the white space of the Unicode
    database as CPython tabulates it. *)
Definition py_isspace (c : char) : bool :=
  ((0x09 <=? c) && (c <=? 0x0D)) || ((0x1C <=? c) && (c <=? 0x20))
  || (c =? 0x85) || (c =? 0xA0) || (c =? 0x1680)
  || ((0x2000 <=? c) && (c <=? 0x200A))
  || (c =? 0x2028) || (c =? 0x2029) || (c =? 0x202F) || (c =? 0x205F)
  || (c =? 0x3000).

Fixpoint lstrip (s : pystr) : pystr :=
  match s with
  | c :: r => if py_isspace c then lstrip r else s
  | [] => []
  end.

Definition rstrip (s : pystr) : pystr := rev (lstrip (rev s)).

(** [s.strip()] *)
Definition strip (s : pystr) : pystr := rstrip (lstrip s).

(** Truth value of a string: [not s] holds of the empty string only. *)
Definition str_truthy (s : pystr) : bool :=
  match s with [] => false | _ => true end.

(** A surrogate code point has no UTF-8 encoding: writing it to a file
    opened with [encoding='utf-8'] raises [UnicodeEncodeError]. *)
Definition is_surrogate (c : char) : bool := (0xD800 <=? c) && (c <=? 0xDFFF).

Definition encodable (s : pystr) : bool := forallb (fun c => negb (is_surrogate c)) s.

(** ** Decimal numerals *)

Fixpoint uint_chars (d : Decimal.uint) : pystr :=
  match d with
  | Decimal.Nil => []
  | Decimal.D0 d => 0x30 :: uint_chars d
  | Decimal.D1 d => 0x31 :: uint_chars d
  | Decimal.D2 d => 0x32 :: uint_chars d
  | Decimal.D3 d => 0x33 :: uint_chars d
  | Decimal.D4 d => 0x34 :: uint_chars d
  | Decimal.D5 d => 0x35 :: uint_chars d
  | Decimal.D6 d => 0x36 :: uint_chars d
  | Decimal.D7 d => 0x37 :: uint_chars d
  | Decimal.D8 d => 0x38 :: uint_chars d
  | Decimal.D9 d => 0x39 :: uint_chars d
  end.

(** [int.__repr__] *)
Definition intstr (n : Z) : pystr :=
  match n with
  | Z0 => [0x30]
  | Zpos p => uint_chars (Pos.to_uint p)
  | Zneg p => 0x2D :: uint_chars (Pos.to_uint p)
  end.

(** ** The values of the plugin *)

(** What [json.load] can return, which is also what a raw OneBot payload
    holds.  A float is kept as the literal that denotes it: its value is
    never inspected by the plugin.  A dictionary keeps its insertion order,
    as Python's does. *)
#[warnings="-register-all"]
Inductive json : Type :=
| JNull
| JBool (b : bool)
| JInt (n : Z)
| JFloat (lexeme : pystr)
| JStr (s : pystr)
| JArr (l : list json)
| JObj (d : list (pystr * json)).

Definition dict := list (pystr * json).

Definition keys (d : dict) : list pystr := map fst d.

(** [d.get(k)] before the default: the value stored under [k], if any. *)
Fixpoint dict_lookup (d : dict) (k : pystr) : option json :=
  match d with
  | [] => None
  | (k', v) :: r => if pystr_eqb k k' then Some v else dict_lookup r k
  end.

(** [d.get(k, default)] *)
Definition dict_get (d : dict) (k : pystr) (default : json) : json :=
  match dict_lookup d k with
  | Some v => v
  | None => default
  end.

(** [d[k] = v]: an existing key keeps its place and takes the new value, a
    new key goes last. *)
Fixpoint dict_setitem (d : dict) (k : pystr) (v : json) : dict :=
  match d with
  | [] => [(k, v)]
  | (k', v') :: r =>
      if pystr_eqb k k' then (k', v) :: r else (k', v') :: dict_setitem r k v
  end.

(** [v == s] for a string literal [s] *)
Definition eq_str (v : json) (s : pystr) : bool :=
  match v with
  | JStr t => pystr_eqb t s
  | _ => false
  end.

(** ** Exceptions *)

Inductive exn : Type :=
| OSError
| JSONDecodeError
| UnicodeEncodeError
| TypeError
| AttributeError
| ValueError
| OverflowError.

Inductive outcome (A : Type) : Type :=
| Ret (a : A)
| Raise (e : exn).

Arguments Ret {A} a.
Arguments Raise {A} e.

(** ** What the interpreter supplies

    The plugin formats values and converts them to integers with Python
    built-ins.  Their results on strings, integers, booleans and [None] are
    spelled out below; the rest (floating point, the [repr] of containers,
    [int] of a string, the message of an exception) is taken from the
    interpreter. *)
Class Runtime : Type := {
  (** the text [json.dump] writes for the float a literal denotes *)
  floatstr : pystr -> pystr;
  (** [repr] of a float, a list or a dictionary *)
  py_repr : json -> pystr;
  (** [int(s)] for a string [s]; [None] is [ValueError] *)
  int_of_str : pystr -> option Z;
  (** [int(x)] for the float a literal denotes *)
  int_of_float : pystr -> outcome Z;
  (** [str(e)] for an exception [e] *)
  exn_message : exn -> pystr
}.

(** ** [json.dump]

    [json.dump(obj, f, ensure_ascii=False, indent=2)] writes the chunks of
    the pure-Python [_make_iterencode] one by one.  The chunks matter: when
    one of them cannot be encoded, the chunks before it are already in the
    file. *)

Definition c_quote : char := 0x22.      (* double quote *)
Definition c_backslash : char := 0x5C.  (* backslash *)
Definition c_comma : char := 0x2C.
Definition c_colon : char := 0x3A.
Definition c_space : char := 0x20.
Definition c_newline : char := 0x0A.
Definition c_lbrace : char := 0x7B.
Definition c_rbrace : char := 0x7D.
Definition c_lbracket : char := 0x5B.
Definition c_rbracket : char := 0x5D.
Definition c_minus : char := 0x2D.
Definition c_u : char := 0x75.

Definition hexdigit (n : N) : char :=
  if n <? 10 then 0x30 + n else 0x61 + (n - 10).

(** One character of a string, as [ESCAPE_DCT] replaces it. *)
Definition escape_char (c : char) : pystr :=
  if c =? c_quote then [c_backslash; c_quote]
  else if c =? c_backslash then [c_backslash; c_backslash]
  else if c =? 0x08 then [c_backslash; 0x62]
  else if c =? 0x0C then [c_backslash; 0x66]
  else if c =? 0x0A then [c_backslash; 0x6E]
  else if c =? 0x0D then [c_backslash; 0x72]
  else if c =? 0x09 then [c_backslash; 0x74]
  else if c <? 0x20 then
    [c_backslash; c_u; 0x30; 0x30; hexdigit (c / 16); hexdigit (c mod 16)]
  else [c].

Fixpoint escape (s : pystr) : pystr :=
  match s with
  | [] => []
  | c :: r => escape_char c ++ escape r
  end.

(** [encode_basestring]: the string between double quotes, escaped; other
    characters, non-ASCII included, are written as they are. *)
Definition encode_basestring (s : pystr) : pystr :=
  c_quote :: escape s ++ [c_quote].

(** ['\n' + ' ' * (2 * level)] *)
Definition newline_indent (lvl : nat) : pystr :=
  c_newline :: repeat c_space (2 * lvl).

Definition item_separator (lvl : nat) : pystr := c_comma :: newline_indent lvl.

Definition key_separator : pystr := [c_colon; c_space].

Section Runtime.

Context {rt : Runtime}.

(** The text of a value that is written in one piece. *)
Definition scalar_text (v : json) : option pystr :=
  match v with
  | JStr s => Some (encode_basestring s)
  | JNull => Some (u "null")
  | JBool true => Some (u "true")
  | JBool false => Some (u "false")
  | JInt n => Some (intstr n)
  | JFloat x => Some (floatstr x)
  | JArr _ | JObj _ => None
  end.

(** The loop of [_iterencode_list] at indentation [lvl]; [buf] is what
    goes before the next element, [encode] writes a nested container. *)
Fixpoint _iterencode_list (encode : json -> list pystr) (lvl : nat)
  (l : list json) (buf : pystr) {struct l} : list pystr :=
  match l with
  | [] => []
  | v :: r =>
      match scalar_text v with
      | Some t => [buf ++ t]
      | None => buf :: encode v
      end ++ _iterencode_list encode lvl r (item_separator lvl)
  end.

(** The loop of [_iterencode_dict] at indentation [lvl]. *)
Fixpoint _iterencode_dict (encode : json -> list pystr) (lvl : nat)
  (d : list (pystr * json)) (first : bool) {struct d} : list pystr :=
  match d with
  | [] => []
  | (k, v) :: r =>
      (if first then [] else [item_separator lvl])
      ++ encode_basestring k :: key_separator ::
      match scalar_text v with
      | Some t => [t]
      | None => encode v
      end ++ _iterencode_dict encode lvl r false
  end.

(** [_iterencode(o, level)] *)
Fixpoint iterencode (o : json) (lvl : nat) {struct o} : list pystr :=
  match o with
  | JArr [] => [u "[]"]
  | JArr l =>
      _iterencode_list (fun v => iterencode v (S lvl)) (S lvl) l
        (c_lbracket :: newline_indent (S lvl))
      ++ [newline_indent lvl; [c_rbracket]]
  | JObj [] => [u "{}"]
  | JObj d =>
      [c_lbrace] :: newline_indent (S lvl) ::
      _iterencode_dict (fun v => iterencode v (S lvl)) (S lvl) d true
      ++ [newline_indent lvl; [c_rbrace]]
  | v =>
      match scalar_text v with
      | Some t => [t]
      | None => []
      end
  end.

(** The text [json.dumps] would return: all chunks in a row. *)
Definition json_dumps (o : json) : pystr := List.concat (iterencode o 0).

(** ** [json.load]

    The decoder of the [json] module as its C scanner implements it.  The
    limits of the interpreter are not part of it: a text is decoded whatever
    its nesting depth and the number of digits of its integers, where the
    interpreter raises [RecursionError] beyond its recursion limit and
    [ValueError] on an integer of more than 4300 digits. *)

Definition is_ws (c : char) : bool :=
  (c =? 0x20) || (c =? 0x09) || (c =? 0x0A) || (c =? 0x0D).

Fixpoint skip_ws (s : pystr) : pystr :=
  match s with
  | c :: r => if is_ws c then skip_ws r else s
  | [] => []
  end.

Definition hexval (c : char) : option N :=
  if (0x30 <=? c) && (c <=? 0x39) then Some (c - 0x30)
  else if (0x61 <=? c) && (c <=? 0x66) then Some (c - 0x61 + 10)
  else if (0x41 <=? c) && (c <=? 0x46) then Some (c - 0x41 + 10)
  else None.

Definition hex4 (a b c d : char) : option N :=
  match hexval a, hexval b, hexval c, hexval d with
  | Some x, Some y, Some z, Some w => Some (((x * 16 + y) * 16 + z) * 16 + w)
  | _, _, _, _ => None
  end.

Definition is_high_surrogate (c : N) : bool := (0xD800 <=? c) && (c <=? 0xDBFF).
Definition is_low_surrogate (c : N) : bool := (0xDC00 <=? c) && (c <=? 0xDFFF).

Definition join_surrogates (hi lo : N) : N :=
  0x10000 + (hi - 0xD800) * 0x400 + (lo - 0xDC00).

Definition cons_char (c : char) (r : option (pystr * pystr))
  : option (pystr * pystr) :=
  match r with
  | Some (t, rest) => Some (c :: t, rest)
  | None => None
  end.

(** [scanstring] (strict), called after the opening quote: the string and
    the text after its closing quote. *)
Fixpoint scanstring (s : pystr) : option (pystr * pystr) :=
  match s with
  | [] => None
  | c :: r =>
      if c =? c_quote then Some ([], r)
      else if c =? c_backslash then
        match r with
        | [] => None
        | e :: r1 =>
            if e =? c_u then
              match r1 with
              | h1 :: h2 :: h3 :: h4 :: r2 =>
                  match hex4 h1 h2 h3 h4 with
                  | None => None
                  | Some cp =>
                      if is_high_surrogate cp then
                        match r2 with
                        | b :: v :: g1 :: g2 :: g3 :: g4 :: r3 =>
                            if (b =? c_backslash) && (v =? c_u) then
                              match hex4 g1 g2 g3 g4 with
                              | None => None
                              | Some cp2 =>
                                  if is_low_surrogate cp2
                                  then cons_char (join_surrogates cp cp2)
                                                 (scanstring r3)
                                  else cons_char cp (scanstring r2)
                              end
                            else cons_char cp (scanstring r2)
                        | _ => cons_char cp (scanstring r2)
                        end
                      else cons_char cp (scanstring r2)
                  end
              | _ => None
              end
            else if e =? c_quote then cons_char c_quote (scanstring r1)
            else if e =? c_backslash then cons_char c_backslash (scanstring r1)
            else if e =? 0x2F then cons_char 0x2F (scanstring r1)
            else if e =? 0x62 then cons_char 0x08 (scanstring r1)
            else if e =? 0x66 then cons_char 0x0C (scanstring r1)
            else if e =? 0x6E then cons_char 0x0A (scanstring r1)
            else if e =? 0x72 then cons_char 0x0D (scanstring r1)
            else if e =? 0x74 then cons_char 0x09 (scanstring r1)
            else None
        end
      else if c <? 0x20 then None
      else cons_char c (scanstring r)
  end.

Definition is_digit (c : char) : bool := (0x30 <=? c) && (c <=? 0x39).

(** The longest run of ASCII digits at the head of [s], and what follows. *)
Fixpoint span_digits (s : pystr) : pystr * pystr :=
  match s with
  | c :: r =>
      if is_digit c
      then let '(ds, rest) := span_digits r in (c :: ds, rest)
      else ([], s)
  | [] => ([], [])
  end.

Definition digits_value (ds : pystr) : Z :=
  fold_left (fun acc c => (acc * 10 + Z.of_N (c - 0x30))%Z) ds 0%Z.

(** The integer part of a number, an optional minus sign then [0] or a
    digit from 1 to 9 and more digits, and the rest of the text. *)
Definition match_integer (s : pystr) : option (pystr * pystr) :=
  let '(sign, s1) :=
    match s with
    | c :: r => if c =? c_minus then ([c_minus], r) else ([], s)
    | [] => ([], s)
    end in
  match s1 with
  | c :: r =>
      if c =? 0x30 then Some (sign ++ [c], r)
      else if is_digit c
      then let '(ds, rest) := span_digits r in Some (sign ++ c :: ds, rest)
      else None
  | [] => None
  end.

(** The fraction, if any: a dot and at least one digit. *)
Definition match_frac (s : pystr) : pystr * pystr :=
  match s with
  | c :: r =>
      if c =? 0x2E then
        match span_digits r with
        | ([], _) => ([], s)
        | (ds, rest) => (c :: ds, rest)
        end
      else ([], s)
  | [] => ([], s)
  end.

(** The exponent, if any: [e] or [E], an optional sign, at least one digit. *)
Definition match_exp (s : pystr) : pystr * pystr :=
  match s with
  | c :: r =>
      if (c =? 0x65) || (c =? 0x45) then
        let '(sign, r1) :=
          match r with
          | g :: r' =>
              if (g =? c_minus) || (g =? 0x2B) then ([g], r') else ([], r)
          | [] => ([], r)
          end in
        match span_digits r1 with
        | ([], _) => ([], s)
        | (ds, rest) => (c :: sign ++ ds, rest)
        end
      else ([], s)
  | [] => ([], s)
  end.

Definition int_of_literal (t : pystr) : Z :=
  match t with
  | c :: r => if c =? c_minus then (- digits_value r)%Z else digits_value t
  | [] => 0%Z
  end.

(** A number: an [int] when it has neither fraction nor exponent, a
    [float] otherwise. *)
Definition match_number (s : pystr) : option (json * pystr) :=
  match match_integer s with
  | None => None
  | Some (i, r) =>
      let '(f, r1) := match_frac r in
      let '(e, r2) := match_exp r1 in
      match f, e with
      | [], [] => Some (JInt (int_of_literal i), r2)
      | _, _ => Some (JFloat (i ++ f ++ e), r2)
      end
  end.

(** [s] starts with the literal [p]: what follows it. *)
Fixpoint after_prefix (p s : pystr) : option pystr :=
  match p, s with
  | [], _ => Some s
  | a :: p', b :: s' => if a =? b then after_prefix p' s' else None
  | _ :: _, [] => None
  end.

Definition literal (p : pystr) (v : json) (s : pystr)
  (otherwise : option (json * pystr)) : option (json * pystr) :=
  match after_prefix p s with
  | Some r => Some (v, r)
  | None => otherwise
  end.

(** [scan_once], with the loops of [_parse_object] and [_parse_array].
    [fuel] bounds the calls still allowed; [json_loads] gives enough of it
    for any text. *)
Fixpoint scan_once (fuel : nat) (s : pystr) {struct fuel}
  : option (json * pystr) :=
  match fuel with
  | O => None
  | S f =>
      match s with
      | [] => None
      | c :: r =>
          if c =? c_quote then
            match scanstring r with
            | Some (t, r') => Some (JStr t, r')
            | None => None
            end
          else if c =? c_lbrace then
            match skip_ws r with
            | c' :: r' =>
                if c' =? c_rbrace then Some (JObj [], r')
                else parse_members f (c' :: r') []
            | [] => None
            end
          else if c =? c_lbracket then
            match skip_ws r with
            | c' :: r' =>
                if c' =? c_rbracket then Some (JArr [], r')
                else parse_elements f (c' :: r') []
            | [] => None
            end
          else
            literal (u "null") JNull s
            (literal (u "true") (JBool true) s
            (literal (u "false") (JBool false) s
            (literal (u "NaN") (JFloat (u "NaN")) s
            (literal (u "Infinity") (JFloat (u "Infinity")) s
            (literal (u "-Infinity") (JFloat (u "-Infinity")) s
            (match_number s))))))
      end
  end

(** One member ["key": value] of an object and what follows it; [acc] holds
    the members read so far. *)
with parse_members (fuel : nat) (s : pystr) (acc : dict) {struct fuel}
  : option (json * pystr) :=
  match fuel with
  | O => None
  | S f =>
      match s with
      | [] => None
      | c :: r =>
          if c =? c_quote then
            match scanstring r with
            | None => None
            | Some (key, r1) =>
                match skip_ws r1 with
                | c1 :: r2 =>
                    if c1 =? c_colon then
                      match scan_once f (skip_ws r2) with
                      | None => None
                      | Some (v, r3) =>
                          let acc' := dict_setitem acc key v in
                          match skip_ws r3 with
                          | c3 :: r4 =>
                              if c3 =? c_rbrace then Some (JObj acc', r4)
                              else if c3 =? c_comma
                              then parse_members f (skip_ws r4) acc'
                              else None
                          | [] => None
                          end
                      end
                    else None
                | [] => None
                end
            end
          else None
      end
  end

(** One element of an array and what follows it. *)
with parse_elements (fuel : nat) (s : pystr) (acc : list json) {struct fuel}
  : option (json * pystr) :=
  match fuel with
  | O => None
  | S f =>
      match scan_once f s with
      | None => None
      | Some (v, r) =>
          match skip_ws r with
          | c :: r' =>
              if c =? c_rbracket then Some (JArr (acc ++ [v]), r')
              else if c =? c_comma
              then parse_elements f (skip_ws r') (acc ++ [v])
              else None
          | [] => None
          end
      end
  end.

(** [json.loads(s)]: no byte order mark, one value, white space around it
    and nothing else. *)
Definition json_loads (s : pystr) : outcome json :=
  match s with
  | 0xFEFF :: _ => Raise JSONDecodeError
  | _ =>
      match scan_once (S (List.length s)) (skip_ws s) with
      | Some (v, r) =>
          match skip_ws r with
          | [] => Ret v
          | _ :: _ => Raise JSONDecodeError
          end
      | None => Raise JSONDecodeError
      end
  end.

End Runtime.

(** ** The plugin and its surroundings *)

(** The data directory as the plugin sees it: the text of
    [group_welcomes.json] when the file exists, and whether the operating
    system lets the plugin create the directory, read the file and open it
    for writing.  A file that cannot be decoded as UTF-8 counts as one that
    cannot be read.  A write fails when the file cannot be opened or when a
    chunk cannot be encoded. *)
Record disk : Type := {
  data_file : option pystr;
  can_mkdir : bool;
  can_read : bool;
  can_write : bool
}.

Inductive level : Type := DEBUG | INFO | ERROR.

(** The messages of the logger, with the values that are formatted in. *)
Inductive log_message : Type :=
| LogInitialized
| LogInitFailed (e : exn)
| LogTerminated
| LogTerminateFailed (e : exn)
| LogLoaded (n : nat)
| LogLoadFailed (e : exn)
| LogSaved (n : nat)
| LogSaveFailed (e : exn)
| LogNewMember (user_id : Z) (group_id : pystr)
| LogJoinFailed (e : exn)
| LogWelcomeSet (group_id : pystr)
| LogSetFailed (e : exn)
| LogViewFailed (e : exn).

(** [self] of [WelcomePlugin] together with the disk and the log. *)
Record world : Type := {
  default_message : pystr;
  group_welcomes : json;
  fs : disk;
  log : list (level * log_message)
}.

(** Message components and the results a handler yields. *)
Inductive component : Type :=
| At (qq : Z)
| Plain (text : pystr).

Inductive result : Type :=
| plain_result (text : pystr)
| chain_result (chain : list component).

(** The part of [AstrBotMessage] the plugin looks at: [None] when the
    attribute is missing. *)
Record message_object : Type := {
  raw_message : option json
}.

(** The part of [AiocqhttpMessageEvent] the plugin looks at.
    [get_group_id] is the empty string outside a group. *)
Record event : Type := {
  message_obj : option message_object;
  get_group_id : pystr;
  role : pystr
}.

(** ** A monad for the methods

    A method runs on a world, ends normally or with an exception, leaves a
    world and has yielded some results.  An exception does not undo what
    was done before it. *)
Definition M (A : Type) : Type := world -> outcome A * world * list result.

Definition ret {A} (a : A) : M A := fun w => (Ret a, w, []).

Definition bind {A B} (m : M A) (k : A -> M B) : M B :=
  fun w =>
    match m w with
    | (Ret a, w1, out1) =>
        let '(r, w2, out2) := k a w1 in (r, w2, out1 ++ out2)
    | (Raise e, w1, out1) => (Raise e, w1, out1)
    end.

Definition raise {A} (e : exn) : M A := fun w => (Raise e, w, []).

(** [try: m  except Exception as e: handler e] *)
Definition try_except {A} (m : M A) (handler : exn -> M A) : M A :=
  fun w =>
    match m w with
    | (Ret a, w1, out1) => (Ret a, w1, out1)
    | (Raise e, w1, out1) =>
        let '(r, w2, out2) := handler e w1 in (r, w2, out1 ++ out2)
    end.

Definition get_world : M world := fun w => (Ret w, w, []).

Definition put_world (w' : world) : M unit := fun _ => (Ret tt, w', []).

Definition yield (r : result) : M unit := fun w => (Ret tt, w, [r]).

Definition lift {A} (o : outcome A) : M A := fun w => (o, w, []).

Declare Scope py_scope.
Delimit Scope py_scope with py.

Notation "x <- m ;; k" := (bind m (fun x => k))
  (at level 61, m at next level, right associativity) : py_scope.
Notation "m ;; k" := (bind m (fun _ => k))
  (at level 61, right associativity) : py_scope.

Local Open Scope py_scope.

(** The world, the outcome and the results of a run. *)
Definition world_of {A} (r : outcome A * world * list result) : world :=
  snd (fst r).
Definition outcome_of {A} (r : outcome A * world * list result) : outcome A :=
  fst (fst r).
Definition yielded {A} (r : outcome A * world * list result) : list result :=
  snd r.

(** The world with one field changed. *)
Definition with_group_welcomes (w : world) (v : json) : world :=
  {| default_message := default_message w; group_welcomes := v;
     fs := fs w; log := log w |}.

Definition with_file (w : world) (f : option pystr) : world :=
  {| default_message := default_message w;
     group_welcomes := group_welcomes w;
     fs := {| data_file := f; can_mkdir := can_mkdir (fs w);
              can_read := can_read (fs w); can_write := can_write (fs w) |};
     log := log w |}.

Definition with_log (w : world) (l : level) (m : log_message) : world :=
  {| default_message := default_message w;
     group_welcomes := group_welcomes w;
     fs := fs w; log := log w ++ [(l, m)] |}.

Definition set_group_welcomes (v : json) : M unit :=
  fun w => (Ret tt, with_group_welcomes w v, []).

Definition set_data_file (f : option pystr) : M unit :=
  fun w => (Ret tt, with_file w f, []).

Definition logger (l : level) (m : log_message) : M unit :=
  fun w => (Ret tt, with_log w l m, []).

(** *** The file *)

(** [self.data_dir.mkdir(parents=True, exist_ok=True)] *)
Definition mkdir : M unit :=
  w <- get_world ;;
  if can_mkdir (fs w) then ret tt else raise OSError.

(** [open(self.data_file, 'r', encoding='utf-8')] and reading all of it,
    for a file that exists. *)
Definition read_text (text : pystr) : M pystr :=
  w <- get_world ;;
  if can_read (fs w) then ret text else raise OSError.

(** [open(self.data_file, 'w', encoding='utf-8')]: the file is created or
    emptied. *)
Definition open_for_writing : M unit :=
  w <- get_world ;;
  if can_write (fs w) then set_data_file (Some []) else raise OSError.

(** [f.write(chunk)]: the chunk is encoded, then appended. *)
Definition write (chunk : pystr) : M unit :=
  w <- get_world ;;
  if encodable chunk then
    set_data_file
      (Some (match data_file (fs w) with Some t => t | None => [] end ++ chunk))
  else raise UnicodeEncodeError.

Fixpoint write_chunks (chunks : list pystr) : M unit :=
  match chunks with
  | [] => ret tt
  | c :: r => write c ;; write_chunks r
  end.

(** *** Built-ins on values *)

Section Methods.

Context {rt : Runtime}.

(** [len(v)] *)
Definition py_len (v : json) : outcome nat :=
  match v with
  | JObj d => Ret (List.length d)
  | JArr l => Ret (List.length l)
  | JStr s => Ret (List.length s)
  | _ => Raise TypeError
  end.

(** [str(v)], which is also what an f-string puts for [{v}]. *)
Definition py_str (v : json) : pystr :=
  match v with
  | JStr s => s
  | JNull => u "None"
  | JBool true => u "True"
  | JBool false => u "False"
  | JInt n => intstr n
  | JFloat _ | JArr _ | JObj _ => py_repr v
  end.

(** [int(v)] *)
Definition py_int (v : json) : outcome Z :=
  match v with
  | JInt n => Ret n
  | JBool true => Ret 1%Z
  | JBool false => Ret 0%Z
  | JStr s =>
      match int_of_str s with
      | Some n => Ret n
      | None => Raise ValueError
      end
  | JFloat x => int_of_float x
  | JNull | JArr _ | JObj _ => Raise TypeError
  end.

(** [v.get(k, default)]: only a dictionary has the method. *)
Definition py_get (v : json) (k : pystr) (default : json) : outcome json :=
  match v with
  | JObj d => Ret (dict_get d k default)
  | _ => Raise AttributeError
  end.

(** [v[k] = x] for a string [k]: only a dictionary accepts it. *)
Definition py_setitem (v : json) (k : pystr) (x : json) : outcome json :=
  match v with
  | JObj d => Ret (JObj (dict_setitem d k x))
  | _ => Raise TypeError
  end.

(** ** The methods of [WelcomePlugin] *)

(** [__init__]: a fresh plugin on a given disk. *)
Definition init (default : pystr) (d : disk) : world :=
  {| default_message := default; group_welcomes := JObj [];
     fs := d; log := [] |}.

Definition _load_group_welcomes : M unit :=
  try_except
    (w <- get_world ;;
     match data_file (fs w) with
     | Some text =>
         t <- read_text text ;;
         v <- lift (json_loads t) ;;
         set_group_welcomes v ;;
         n <- lift (py_len v) ;;
         logger INFO (LogLoaded n)
     | None => set_group_welcomes (JObj [])
     end)
    (fun e =>
       logger ERROR (LogLoadFailed e) ;;
       set_group_welcomes (JObj [])).

Definition _save_group_welcomes : M unit :=
  try_except
    (open_for_writing ;;
     w <- get_world ;;
     write_chunks (iterencode (group_welcomes w) 0) ;;
     n <- lift (py_len (group_welcomes w)) ;;
     logger DEBUG (LogSaved n))
    (fun e => logger ERROR (LogSaveFailed e)).

Definition initialize : M unit :=
  try_except
    (mkdir ;;
     _load_group_welcomes ;;
     logger INFO LogInitialized)
    (fun e => logger ERROR (LogInitFailed e)).

Definition terminate : M unit :=
  try_except
    (_save_group_welcomes ;;
     logger INFO LogTerminated)
    (fun e => logger ERROR (LogTerminateFailed e)).

(** The lookup both handlers make:
    [self.group_welcomes.get(group_id, self.default_message)]. *)
Definition get_welcome (group_id : pystr) : M json :=
  w <- get_world ;;
  lift (py_get (group_welcomes w) group_id (JStr (default_message w))).

Definition handle_group_increase (ev : event) : M unit :=
  try_except
    (match message_obj ev with
     | None => ret tt
     | Some mo =>
         match raw_message mo with
         | None => ret tt
         | Some (JObj ((_ :: _) as raw)) =>
             if eq_str (dict_get raw (u "post_type") JNull) (u "notice")
                && eq_str (dict_get raw (u "notice_type") JNull)
                          (u "group_increase")
             then
               let group_id := py_str (dict_get raw (u "group_id") (JStr [])) in
               user_id <- lift (py_int (dict_get raw (u "user_id") (JInt 0))) ;;
               if negb (str_truthy group_id) || (user_id =? 0)%Z then ret tt
               else
                 welcome_msg <- get_welcome group_id ;;
                 let chain :=
                   [At user_id; Plain (c_space :: py_str welcome_msg)] in
                 logger INFO (LogNewMember user_id group_id) ;;
                 yield (chain_result chain)
             else ret tt
         | Some _ => ret tt
         end
     end)
    (fun e => logger ERROR (LogJoinFailed e)).

Definition MSG_GROUP_ONLY : pystr := u "此命令仅在群聊中可用".
Definition MSG_NO_PERMISSION : pystr := u "抱歉，你的权限不足".
Definition MSG_EMPTY : pystr := u "欢迎语不能为空".
Definition MSG_SET_OK : pystr := u "已设置本群欢迎语:" ++ [c_newline].
Definition MSG_SET_FAILED : pystr := u "设置失败: ".
Definition MSG_CURRENT : pystr := u "当前欢迎语:" ++ [c_newline].
Definition MSG_VIEW_FAILED : pystr := u "查看失败: ".

Definition set_welcome (ev : event) (message : pystr) : M unit :=
  try_except
    (let group_id := get_group_id ev in
     if negb (str_truthy group_id) then yield (plain_result MSG_GROUP_ONLY)
     else if negb (pystr_eqb (role ev) (u "admin"))
     then yield (plain_result MSG_NO_PERMISSION)
     else if negb (str_truthy (strip message))
     then yield (plain_result MSG_EMPTY)
     else
       w <- get_world ;;
       d <- lift (py_setitem (group_welcomes w) group_id (JStr message)) ;;
       set_group_welcomes d ;;
       _save_group_welcomes ;;
       yield (plain_result (MSG_SET_OK ++ message)) ;;
       logger INFO (LogWelcomeSet group_id))
    (fun e =>
       logger ERROR (LogSetFailed e) ;;
       yield (plain_result (MSG_SET_FAILED ++ exn_message e))).

Definition view_welcome (ev : event) : M unit :=
  try_except
    (let group_id := get_group_id ev in
     if negb (str_truthy group_id) then yield (plain_result MSG_GROUP_ONLY)
     else if negb (pystr_eqb (role ev) (u "admin"))
     then yield (plain_result MSG_NO_PERMISSION)
     else
       current <- get_welcome group_id ;;
       yield (plain_result (MSG_CURRENT ++ py_str current)))
    (fun e =>
       logger ERROR (LogViewFailed e) ;;
       yield (plain_result (MSG_VIEW_FAILED ++ exn_message e))).

End Methods.

(** ** The store as the specification sees it *)

(** A mapping from group identifiers to welcome texts, as a dictionary. *)
Definition of_strs (l : list (pystr * pystr)) : dict :=
  map (fun kv => (fst kv, JStr (snd kv))) l.

(** [d[k] = v] on a mapping of strings. *)
Fixpoint str_setitem (l : list (pystr * pystr)) (k v : pystr)
  : list (pystr * pystr) :=
  match l with
  | [] => [(k, v)]
  | (k', v') :: r =>
      if pystr_eqb k k' then (k', v) :: r else (k', v') :: str_setitem r k v
  end.

(** A text that is not blank: something is left after [strip]. *)
Definition nonblank (s : pystr) : Prop := strip s <> [].

(** The invariants of the data model: a string to string mapping with
    unique keys and no blank text. *)
Definition good_store (v : json) : Prop :=
  exists l, v = JObj (of_strs l) /\ NoDup (map fst l)
            /\ Forall (fun kv => nonblank (snd kv)) l.

(** What [write_chunks] leaves behind: the chunks before the first one
    that cannot be encoded, and whether all of them could. *)
Fixpoint written (chunks : list pystr) : pystr * bool :=
  match chunks with
  | [] => ([], true)
  | c :: r =>
      if encodable c
      then let '(t, ok) := written r in (c ++ t, ok)
      else ([], false)
  end.

Definition set_permissions (w : world) (mk rd wr : bool) : world :=
  {| default_message := default_message w;
     group_welcomes := group_welcomes w;
     fs := {| data_file := data_file (fs w); can_mkdir := mk;
              can_read := rd; can_write := wr |};
     log := log w |}.

Section Reachable.

Context {rt : Runtime}.

(** The world after [_save_group_welcomes]. *)
Definition saved (w : world) : world :=
  if can_write (fs w) then
    let chunks := iterencode (group_welcomes w) 0 in
    let w1 := with_file w (Some (fst (written chunks))) in
    if snd (written chunks) then
      match py_len (group_welcomes w) with
      | Ret n => with_log w1 DEBUG (LogSaved n)
      | Raise e => with_log w1 ERROR (LogSaveFailed e)
      end
    else with_log w1 ERROR (LogSaveFailed UnicodeEncodeError)
  else with_log w ERROR (LogSaveFailed OSError).

(** The world after [_load_group_welcomes]. *)
Definition loaded (w : world) : world :=
  match data_file (fs w) with
  | None => with_group_welcomes w (JObj [])
  | Some t =>
      if can_read (fs w) then
        match json_loads t with
        | Ret v =>
            match py_len v with
            | Ret n => with_log (with_group_welcomes w v) INFO (LogLoaded n)
            | Raise e =>
                with_group_welcomes
                  (with_log (with_group_welcomes w v) ERROR (LogLoadFailed e))
                  (JObj [])
            end
        | Raise e =>
            with_group_welcomes (with_log w ERROR (LogLoadFailed e)) (JObj [])
        end
      else
        with_group_welcomes (with_log w ERROR (LogLoadFailed OSError))
                            (JObj [])
  end.

(** The decoder after a member of an object: a closing brace, or a comma
    and the next member. *)
Definition after_value (fuel : nat) (s : pystr) (acc : dict)
  : option (json * pystr) :=
  match skip_ws s with
  | c :: r =>
      if c =? c_rbrace then Some (JObj acc, r)
      else if c =? c_comma then parse_members fuel (skip_ws r) acc
      else None
  | [] => None
  end.

(** The backing file is absent, or cannot be decoded, or holds a mapping
    that satisfies the invariants. *)
Definition good_file (f : option pystr) : Prop :=
  match f with
  | None => True
  | Some t =>
      json_loads t = Raise JSONDecodeError
      \/ exists v, json_loads t = Ret v /\ good_store v
  end.

(** The invariant of the plugin: the mapping in memory and the one on disk
    both satisfy the invariants of the data model. *)
Definition inv (w : world) : Prop :=
  good_store (group_welcomes w) /\ good_file (data_file (fs w)).

(** One thing that happens to a running plugin.  The plugin owns its data
    file: only [_save_group_welcomes] writes it.  The operating system may
    change what the plugin is allowed to do with it, and the host may
    restart the plugin on the same disk. *)
Inductive step : world -> world -> Prop :=
| step_initialize w : step w (world_of (initialize w))
| step_terminate w : step w (world_of (terminate w))
| step_load w : step w (world_of (_load_group_welcomes w))
| step_save w : step w (world_of (_save_group_welcomes w))
| step_join w ev : step w (world_of (handle_group_increase ev w))
| step_set w ev message : step w (world_of (set_welcome ev message w))
| step_view w ev : step w (world_of (view_welcome ev w))
| step_restart w default : step w (init default (fs w))
| step_permissions w mk rd wr : step w (set_permissions w mk rd wr).

(** The states of the plugin: it starts with no data file. *)
Inductive reachable : world -> Prop :=
| reach_init default mk rd wr :
    reachable (init default {| data_file := None; can_mkdir := mk;
                               can_read := rd; can_write := wr |})
| reach_step w w' : reachable w -> step w w' -> reachable w'.

(** The payload the join handler goes on with: a dictionary that is not
    empty. *)
Definition payload (ev : event) : option dict :=
  match message_obj ev with
  | Some mo =>
      match raw_message mo with
      | Some (JObj ((_ :: _) as raw)) => Some raw
      | _ => None
      end
  | None => None
  end.

(** The payload is a notice of a group increase. *)
Definition is_group_increase (raw : dict) : bool :=
  eq_str (dict_get raw (u "post_type") JNull) (u "notice")
  && eq_str (dict_get raw (u "notice_type") JNull) (u "group_increase").

(** The join shape of an event: a non-empty dictionary payload, a notice
    of a group increase, with group identifier [g] (the payload's
    [group_id] as a string) not empty and member identifier [uid] (the
    payload's [user_id] as an integer) not zero. *)
Definition join_shape (ev : event) (g : pystr) (uid : Z) : Prop :=
  exists mo raw,
    message_obj ev = Some mo /\ raw_message mo = Some (JObj raw)
    /\ raw <> []
    /\ dict_lookup raw (u "post_type") = Some (JStr (u "notice"))
    /\ dict_lookup raw (u "notice_type") = Some (JStr (u "group_increase"))
    /\ py_str (dict_get raw (u "group_id") (JStr [])) = g /\ g <> []
    /\ py_int (dict_get raw (u "user_id") (JInt 0)) = Ret uid /\ uid <> 0%Z.

(** The keys the mapping holds. *)
Definition stored_keys (w : world) : list pystr :=
  match group_welcomes w with
  | JObj d => keys d
  | _ => []
  end.

(** No key and no text of the mapping holds a surrogate code point, so
    that every chunk of its dump can be encoded as UTF-8. *)
Definition mapping_encodable (v : json) : bool :=
  match v with
  | JObj d =>
      forallb (fun kv =>
                 encodable (fst kv)
                 && match snd kv with
                    | JStr s => encodable s
                    | _ => true
                    end) d
  | _ => true
  end.

(** The text of a file is that of a string to string mapping. *)
Definition parses_as_mapping (t : pystr) : Prop :=
  exists l, json_loads t = Ret (JObj (of_strs l)).

(** [save()] then [load()] *)
Definition save_then_load : M unit :=
  _save_group_welcomes ;; _load_group_welcomes.

(** A command comes from an administrator inside a group. *)
Definition in_group (ev : event) : Prop := get_group_id ev <> [].
Definition is_admin (ev : event) : Prop := role ev = u "admin".

End Reachable.

(** ** Concrete worlds for the examples *)

(** [int] of a string of ASCII digits with an optional sign. *)
Definition sample_int_of_str (s : pystr) : option Z :=
  match strip s with
  | [] => None
  | c :: r =>
      let ds := if (c =? c_minus) || (c =? 0x2B) then r else c :: r in
      if forallb is_digit ds && str_truthy ds then
        Some (if c =? c_minus then Z.opp (digits_value ds) else digits_value ds)
      else None
  end.

(** An interpreter for the examples: floats print as they were read. *)
Definition sample_runtime : Runtime :=
  {| floatstr := fun x => x;
     py_repr := fun v => match v with JFloat x => x | _ => u "<container>" end;
     int_of_str := sample_int_of_str;
     int_of_float := fun _ => Raise ValueError;
     exn_message := fun e =>
       match e with
       | OSError => u "OSError"
       | JSONDecodeError => u "JSONDecodeError"
       | UnicodeEncodeError => u "UnicodeEncodeError"
       | TypeError => u "TypeError"
       | AttributeError => u "AttributeError"
       | ValueError => u "ValueError"
       | OverflowError => u "OverflowError"
       end |}.

Definition healthy_disk : disk :=
  {| data_file := None; can_mkdir := true; can_read := true;
     can_write := true |}.

Definition readonly_disk : disk :=
  {| data_file := None; can_mkdir := true; can_read := true;
     can_write := false |}.

(** The scenario of the specification: nothing set, default ["Welcome!"]. *)
Definition fresh_world : world := init (u "Welcome!") healthy_disk.

(** A join notice as OneBot sends it. *)
Definition join_event (group_id user_id : json) : event :=
  {| message_obj :=
       Some {| raw_message :=
                 Some (JObj [(u "post_type", JStr (u "notice"));
                             (u "notice_type", JStr (u "group_increase"));
                             (u "group_id", group_id);
                             (u "user_id", user_id)]) |};
     get_group_id := py_str (rt := sample_runtime) group_id;
     role := u "member" |}.

(** A command sent in group [g] by someone with role [r]. *)
Definition command_event (g r : pystr) : event :=
  {| message_obj := None; get_group_id := g; role := r |}.

(** A command of an administrator of group 100. *)
Definition admin_command : event := command_event (u "100") (u "admin").

(** The plugin on a disk that refuses writes. *)
Definition readonly_world : world := init (u "Welcome!") readonly_disk.

(** The plugin after an administrator has set a text that is one lone
    surrogate, as a JSON escape of the platform can produce. *)
Definition surrogate_world : world :=
  world_of (set_welcome (rt := sample_runtime) admin_command [0xD800]
                        fresh_world).

(** The plugin on a disk whose data file holds a JSON array. *)
Definition array_file_world : world :=
  init (u "Welcome!")
       {| data_file := Some (u "[1]"); can_mkdir := true; can_read := true;
          can_write := true |}.

(** The plugin after an administrator has set the text of group 100. *)
Definition greeted_world : world :=
  world_of (set_welcome (rt := sample_runtime) admin_command (u "Hi there")
                        fresh_world).

(** An ordinary group message: its payload is not a notice. *)
Definition message_event : event :=
  {| message_obj :=
       Some {| raw_message :=
                 Some (JObj [(u "post_type", JStr (u "message"));
                             (u "group_id", JInt 100);
                             (u "user_id", JInt 12345)]) |};
     get_group_id := u "100";
     role := u "member" |}.

(** A restart of the host: a new plugin on the disk that [w] leaves behind,
    then [initialize]. *)
Definition restarted (default : pystr) (w : world) : world :=
  world_of (initialize (init default (fs w))).

(** The plugin after it has loaded the data file that holds an array. *)
Definition array_loaded_world : world :=
  world_of (_load_group_welcomes array_file_world).

(** A disk on which the data directory cannot be created, although a data
    file with a text for group 100 is there. *)
Definition no_directory_disk : disk :=
  {| data_file := data_file (fs greeted_world); can_mkdir := false;
     can_read := true; can_write := true |}.

(** A join notice whose member identifier is [null]. *)
Definition broken_join_event : event := join_event (JInt 100) JNull.

(** A notice of a group increase that carries no member identifier. *)
Definition anonymous_join_event : event :=
  {| message_obj :=
       Some {| raw_message :=
                 Some (JObj [(u "post_type", JStr (u "notice"));
                             (u "notice_type", JStr (u "group_increase"));
                             (u "group_id", JInt 100)]) |};
     get_group_id := u "100";
     role := u "member" |}.

(** A command of an administrator of group 200. *)
Definition other_admin_command : event := command_event (u "200") (u "admin").

(** * Properties *)

(** ** Strings and dictionaries *)

Lemma pystr_eqb_eq (a b : pystr) : pystr_eqb a b = true <-> a = b.
Proof.
  revert b; induction a as [|x a IH]; intros [|y b]; simpl;
    try (split; [discriminate | discriminate]); try tauto.
  rewrite andb_true_iff, N.eqb_eq, IH. split.
  - intros [-> ->]; reflexivity.
  - intros E; injection E; auto.
Qed.

Lemma pystr_eqb_refl (a : pystr) : pystr_eqb a a = true.
Proof. apply pystr_eqb_eq; reflexivity. Qed.

Lemma pystr_eqb_neq (a b : pystr) : a <> b -> pystr_eqb a b = false.
Proof.
  intros H. destruct (pystr_eqb a b) eqn:E; [|reflexivity].
  apply pystr_eqb_eq in E. contradiction.
Qed.

Lemma str_truthy_true (s : pystr) : str_truthy s = true <-> s <> [].
Proof. destruct s; simpl; split; congruence. Qed.

Lemma dict_lookup_setitem_same (d : dict) k v :
  dict_lookup (dict_setitem d k v) k = Some v.
Proof.
  induction d as [|[k' v'] d IH]; simpl.
  - now rewrite pystr_eqb_refl.
  - destruct (pystr_eqb k k') eqn:E; simpl; rewrite E; auto.
Qed.

Lemma dict_lookup_setitem_other (d : dict) k k' v :
  k <> k' -> dict_lookup (dict_setitem d k v) k' = dict_lookup d k'.
Proof.
  intros N. induction d as [|[k0 v0] d IH]; simpl.
  - rewrite pystr_eqb_neq; auto.
  - destruct (pystr_eqb k k0) eqn:E; simpl.
    + apply pystr_eqb_eq in E; subst k0.
      rewrite (pystr_eqb_neq (a := k') (b := k)); auto.
    + now rewrite IH.
Qed.

Lemma dict_lookup_none (d : dict) k :
  ~ In k (keys d) -> dict_lookup d k = None.
Proof.
  induction d as [|[k' v'] d IH]; simpl; intros H; [reflexivity|].
  rewrite pystr_eqb_neq; [apply IH|]; intuition congruence.
Qed.

Lemma dict_setitem_fresh (d : dict) k v :
  ~ In k (keys d) -> dict_setitem d k v = d ++ [(k, v)].
Proof.
  induction d as [|[k' v'] d IH]; simpl; intros H; [reflexivity|].
  rewrite pystr_eqb_neq; [rewrite IH|]; intuition congruence.
Qed.

Lemma keys_of_strs (l : list (pystr * pystr)) : keys (of_strs l) = map fst l.
Proof. unfold keys, of_strs. rewrite map_map. reflexivity. Qed.

Lemma of_strs_app (l1 l2 : list (pystr * pystr)) :
  of_strs (l1 ++ l2) = of_strs l1 ++ of_strs l2.
Proof. apply map_app. Qed.

Lemma of_strs_setitem (l : list (pystr * pystr)) k v :
  dict_setitem (of_strs l) k (JStr v) = of_strs (str_setitem l k v).
Proof.
  induction l as [|[k' v'] l IH]; simpl; [reflexivity|].
  destruct (pystr_eqb k k'); simpl; [reflexivity|]. now rewrite IH.
Qed.

Lemma in_keys_str_setitem (l : list (pystr * pystr)) k v x :
  In x (map fst (str_setitem l k v)) -> x = k \/ In x (map fst l).
Proof.
  induction l as [|[k' v'] l IH]; simpl.
  - intuition.
  - destruct (pystr_eqb k k'); simpl; intuition.
Qed.

Lemma NoDup_str_setitem (l : list (pystr * pystr)) k v :
  NoDup (map fst l) -> NoDup (map fst (str_setitem l k v)).
Proof.
  induction l as [|[k' v'] l IH]; simpl; intros H.
  - constructor; [intros []|constructor].
  - inversion H as [|? ? Hn Hd]; subst.
    destruct (pystr_eqb k k') eqn:E; simpl.
    + constructor; assumption.
    + constructor; [|auto].
      intros Hin. apply in_keys_str_setitem in Hin as [->|Hin]; [|auto].
      rewrite pystr_eqb_refl in E. discriminate.
Qed.

Lemma Forall_str_setitem (P : pystr -> Prop) (l : list (pystr * pystr)) k v :
  P v -> Forall (fun kv => P (snd kv)) l ->
  Forall (fun kv => P (snd kv)) (str_setitem l k v).
Proof.
  intros Hv. induction l as [|[k' v'] l IH]; simpl; intros H.
  - constructor; auto.
  - inversion H; subst. destruct (pystr_eqb k k'); constructor; auto.
Qed.

Lemma good_store_empty : good_store (JObj []).
Proof. exists []. repeat split; constructor. Qed.

Lemma good_store_setitem (l : list (pystr * pystr)) k v :
  NoDup (map fst l) -> Forall (fun kv => nonblank (snd kv)) l -> nonblank v ->
  good_store (JObj (dict_setitem (of_strs l) k (JStr v))).
Proof.
  intros Hd Hf Hv. exists (str_setitem l k v). rewrite of_strs_setitem.
  split; [reflexivity|]. split.
  - now apply NoDup_str_setitem.
  - now apply Forall_str_setitem.
Qed.

(** ** The decoder reads back what the encoder writes *)

Section RoundTrip.

Context {rt : Runtime}.

Lemma hex4_hexdigit (c : N) :
  c < 0x20 ->
  hex4 0x30 0x30 (hexdigit (c / 16)) (hexdigit (c mod 16)) = Some c.
Proof.
  intros H.
  assert (E : exists n, (n < 32)%nat /\ c = N.of_nat n).
  { exists (N.to_nat c). split; [lia | now rewrite N2Nat.id]. }
  destruct E as (n & Hn & ->).
  do 32 (destruct n as [|n]; [reflexivity|]). lia.
Qed.

Lemma scanstring_plain (c : char) (r : pystr) :
  (c =? c_quote) = false -> (c =? c_backslash) = false -> (c <? 0x20) = false ->
  scanstring (c :: r) = cons_char c (scanstring r).
Proof. intros H1 H2 H3. simpl. now rewrite H1, H2, H3. Qed.

(** An escaped character is read back as the character. *)
Lemma scanstring_escape_char (c : char) (r : pystr) :
  scanstring (escape_char c ++ r) = cons_char c (scanstring r).
Proof.
  unfold escape_char.
  destruct (c =? c_quote) eqn:E1; [apply N.eqb_eq in E1; subst; reflexivity|].
  destruct (c =? c_backslash) eqn:E2; [apply N.eqb_eq in E2; subst; reflexivity|].
  destruct (c =? 0x08) eqn:E3; [apply N.eqb_eq in E3; subst; reflexivity|].
  destruct (c =? 0x0C) eqn:E4; [apply N.eqb_eq in E4; subst; reflexivity|].
  destruct (c =? 0x0A) eqn:E5; [apply N.eqb_eq in E5; subst; reflexivity|].
  destruct (c =? 0x0D) eqn:E6; [apply N.eqb_eq in E6; subst; reflexivity|].
  destruct (c =? 0x09) eqn:E7; [apply N.eqb_eq in E7; subst; reflexivity|].
  destruct (c <? 0x20) eqn:E8.
  - apply N.ltb_lt in E8.
    change (scanstring
              ([c_backslash; c_u; 0x30; 0x30; hexdigit (c / 16);
                hexdigit (c mod 16)] ++ r))
      with (match hex4 0x30 0x30 (hexdigit (c / 16)) (hexdigit (c mod 16)) with
            | None => None
            | Some cp =>
                if is_high_surrogate cp then
                  match r with
                  | b :: v :: g1 :: g2 :: g3 :: g4 :: r3 =>
                      if (b =? c_backslash) && (v =? c_u) then
                        match hex4 g1 g2 g3 g4 with
                        | None => None
                        | Some cp2 =>
                            if is_low_surrogate cp2
                            then cons_char (join_surrogates cp cp2)
                                           (scanstring r3)
                            else cons_char cp (scanstring r)
                        end
                      else cons_char cp (scanstring r)
                  | _ => cons_char cp (scanstring r)
                  end
                else cons_char cp (scanstring r)
            end).
    rewrite hex4_hexdigit by assumption.
    replace (is_high_surrogate c) with false; [reflexivity|].
    symmetry. unfold is_high_surrogate. apply andb_false_iff. left.
    apply N.leb_gt. lia.
  - now apply scanstring_plain.
Qed.

Lemma scanstring_escape (s rest : pystr) :
  scanstring (escape s ++ c_quote :: rest) = Some (s, rest).
Proof.
  induction s as [|c s IH]; [reflexivity|].
  simpl escape. rewrite <- app_assoc, scanstring_escape_char, IH. reflexivity.
Qed.

Lemma encode_basestring_cons (s rest : pystr) :
  encode_basestring s ++ rest = c_quote :: escape s ++ c_quote :: rest.
Proof. unfold encode_basestring. simpl. now rewrite <- app_assoc. Qed.

(** A string is read back, whatever follows it. *)
Lemma scan_once_string (f : nat) (s rest : pystr) :
  scan_once (S f) (encode_basestring s ++ rest) = Some (JStr s, rest).
Proof.
  rewrite encode_basestring_cons. simpl. now rewrite scanstring_escape.
Qed.


Lemma skip_ws_string (s rest : pystr) :
  skip_ws (encode_basestring s ++ rest) = encode_basestring s ++ rest.
Proof. reflexivity. Qed.

Lemma skip_ws_spaces (n : nat) (r : pystr) :
  skip_ws (repeat c_space n ++ r) = skip_ws r.
Proof. induction n; simpl; auto. Qed.

Lemma skip_ws_newline_indent (lvl : nat) (r : pystr) :
  skip_ws (newline_indent lvl ++ r) = skip_ws r.
Proof. unfold newline_indent. simpl. apply skip_ws_spaces. Qed.

(** One member of an object whose value is a string. *)
Lemma parse_members_member (f : nat) (k v rest : pystr) (acc : dict) :
  parse_members (S (S f))
    (encode_basestring k ++ key_separator ++ encode_basestring v ++ rest) acc
  = after_value (S f) rest (dict_setitem acc k (JStr v)).
Proof.
  rewrite encode_basestring_cons.
  change (parse_members (S (S f)) (c_quote :: escape k ++ c_quote ::
            key_separator ++ encode_basestring v ++ rest) acc)
    with (match scanstring (escape k ++ c_quote ::
                 key_separator ++ encode_basestring v ++ rest) with
          | None => None
          | Some (key, r1) =>
              match skip_ws r1 with
              | c1 :: r2 =>
                  if c1 =? c_colon then
                    match scan_once (S f) (skip_ws r2) with
                    | None => None
                    | Some (v, r3) =>
                        let acc' := dict_setitem acc key v in
                        match skip_ws r3 with
                        | c3 :: r4 =>
                            if c3 =? c_rbrace then Some (JObj acc', r4)
                            else if c3 =? c_comma
                            then parse_members (S f) (skip_ws r4) acc'
                            else None
                        | [] => None
                        end
                    end
                  else None
              | [] => None
              end
          end).
  rewrite scanstring_escape.
  change (skip_ws (key_separator ++ encode_basestring v ++ rest))
    with (c_colon :: c_space :: encode_basestring v ++ rest).
  change (c_colon =? c_colon) with true. cbv iota.
  change (skip_ws (c_space :: encode_basestring v ++ rest))
    with (encode_basestring v ++ rest).
  rewrite scan_once_string. reflexivity.
Qed.

(** A key with nothing after its colon is not a member. *)
Lemma parse_members_no_value (f : nat) (k : pystr) (acc : dict) :
  parse_members f (encode_basestring k ++ key_separator) acc = None.
Proof.
  destruct f as [|f]; [reflexivity|].
  rewrite encode_basestring_cons.
  change (parse_members (S f) (c_quote :: escape k ++ c_quote ::
            key_separator) acc)
    with (match scanstring (escape k ++ c_quote :: key_separator) with
          | None => None
          | Some (key, r1) =>
              match skip_ws r1 with
              | c1 :: r2 =>
                  if c1 =? c_colon then
                    match scan_once f (skip_ws r2) with
                    | None => None
                    | Some (v, r3) =>
                        let acc' := dict_setitem acc key v in
                        match skip_ws r3 with
                        | c3 :: r4 =>
                            if c3 =? c_rbrace then Some (JObj acc', r4)
                            else if c3 =? c_comma
                            then parse_members f (skip_ws r4) acc'
                            else None
                        | [] => None
                        end
                    end
                  else None
              | [] => None
              end
          end).
  rewrite scanstring_escape.
  change (skip_ws key_separator) with [c_colon; c_space].
  change (c_colon =? c_colon) with true. cbv iota.
  change (skip_ws [c_space]) with (@nil char).
  destruct f; reflexivity.
Qed.

Lemma parse_members_nil (f : nat) (acc : dict) : parse_members f [] acc = None.
Proof. destruct f; reflexivity. Qed.

(** With too little fuel for the value, a member is not read. *)
Lemma parse_members_fuel_1 (k v rest : pystr) (acc : dict) :
  parse_members 1
    (encode_basestring k ++ key_separator ++ encode_basestring v ++ rest) acc
  = None.
Proof.
  rewrite encode_basestring_cons.
  cbn [parse_members scan_once N.eqb c_quote Pos.eqb].
  rewrite scanstring_escape. reflexivity.
Qed.

Lemma after_value_comma (f : nat) (lvl : nat) (r : pystr) (acc : dict) :
  after_value f (item_separator lvl ++ r) acc = parse_members f (skip_ws r) acc.
Proof.
  unfold after_value, item_separator.
  change (skip_ws ((c_comma :: newline_indent lvl) ++ r))
    with (c_comma :: newline_indent lvl ++ r).
  change (c_comma =? c_rbrace) with false.
  change (c_comma =? c_comma) with true. cbv iota.
  now rewrite skip_ws_newline_indent.
Qed.

Lemma written_cons (c : pystr) (r : list pystr) :
  written (c :: r)
  = if encodable c then (c ++ fst (written r), snd (written r)) else ([], false).
Proof. simpl. destruct (encodable c); [|reflexivity]. now destruct (written r). Qed.

Lemma written_all (chunks : list pystr) :
  snd (written chunks) = true -> fst (written chunks) = List.concat chunks.
Proof.
  induction chunks as [|c r IH]; [reflexivity|].
  rewrite written_cons. destruct (encodable c); simpl; [|discriminate].
  intros H. now rewrite IH.
Qed.

(** The members after the first: each comes after a comma, the closing
    brace after the last. *)
Lemma after_value_members (enc : json -> list pystr)
  (l : list (pystr * pystr)) :
  forall (f : nat) (acc : dict) (rest : pystr),
    (List.length l < f)%nat ->
    NoDup (keys acc ++ map fst l) ->
    after_value f
      (List.concat (_iterencode_dict enc 1 (of_strs l) false
                    ++ [newline_indent 0; [c_rbrace]]) ++ rest) acc
    = Some (JObj (acc ++ of_strs l), rest).
Proof.
  induction l as [|[k v] l IH]; intros f acc rest Hf Hd.
  - simpl. rewrite app_nil_r. reflexivity.
  - destruct f as [|[|f]]; simpl in Hf; try lia.
    cbn [of_strs map _iterencode_dict fst snd scalar_text].
    cbn [app List.concat].
    rewrite <- !app_assoc.
    rewrite after_value_comma, skip_ws_string.
    rewrite parse_members_member.
    rewrite dict_setitem_fresh.
    2:{ intros Hin. apply NoDup_remove_2 in Hd. apply Hd.
        apply in_or_app. now left. }
    fold (of_strs l).
    rewrite IH.
    + now rewrite <- app_assoc.
    + lia.
    + unfold keys. rewrite map_app. simpl. rewrite <- app_assoc. exact Hd.
Qed.

Lemma json_loads_brace (x : pystr) :
  json_loads (c_lbrace :: x)
  = match scan_once (S (S (List.length x))) (c_lbrace :: x) with
    | Some (v, r) =>
        match skip_ws r with
        | [] => Ret v
        | _ :: _ => Raise JSONDecodeError
        end
    | None => Raise JSONDecodeError
    end.
Proof. reflexivity. Qed.

Lemma scan_once_brace (f : nat) (x : pystr) :
  scan_once (S f) (c_lbrace :: x)
  = match skip_ws x with
    | c :: r =>
        if c =? c_rbrace then Some (JObj [], r)
        else parse_members f (c :: r) []
    | [] => None
    end.
Proof. reflexivity. Qed.

(** An object that starts with a string key. *)
Lemma scan_once_object (f lvl : nat) (k rest : pystr) :
  scan_once (S f)
    (c_lbrace :: newline_indent lvl ++ encode_basestring k ++ rest)
  = parse_members f (encode_basestring k ++ rest) [].
Proof.
  rewrite scan_once_brace, skip_ws_newline_indent, skip_ws_string.
  rewrite encode_basestring_cons. reflexivity.
Qed.

Lemma iterencode_strs (k v : pystr) (l : list (pystr * pystr)) :
  iterencode (JObj (of_strs ((k, v) :: l))) 0
  = [c_lbrace] :: newline_indent 1 :: encode_basestring k :: key_separator
      :: encode_basestring v
      :: (_iterencode_dict (fun x => iterencode x 1) 1 (of_strs l) false
          ++ [newline_indent 0; [c_rbrace]]).
Proof. reflexivity. Qed.

Lemma length_members (enc : json -> list pystr) (l : list (pystr * pystr))
  (first : bool) (tail : list pystr) :
  (List.length l
   <= List.length (List.concat (_iterencode_dict enc 1 (of_strs l) first
                                ++ tail)))%nat.
Proof.
  revert first. induction l as [|[k v] l IH]; intros first; [simpl; lia|].
  cbn [of_strs map _iterencode_dict fst snd scalar_text].
  fold (of_strs l).
  rewrite <- !app_assoc, concat_app, length_app.
  cbn [app List.concat]. rewrite !length_app.
  specialize (IH false).
  change (List.length key_separator) with 2%nat. simpl (List.length (_ :: l)).
  lia.
Qed.

(** [json.load] reads back what [json.dump] wrote for a mapping of strings
    with unique keys. *)
Lemma json_loads_dumps_strs (l : list (pystr * pystr)) :
  NoDup (map fst l) ->
  json_loads (json_dumps (JObj (of_strs l))) = Ret (JObj (of_strs l)).
Proof.
  intros Hd. destruct l as [|[k v] l]; [reflexivity|].
  unfold json_dumps. rewrite iterencode_strs.
  cbn [List.concat app].
  rewrite json_loads_brace.
  pose proof (length_members (fun x => iterencode x 1) l false
                [newline_indent 0; [c_rbrace]]) as Hlen.
  set (t := List.concat _) in *.
  rewrite scan_once_object.
  rewrite !length_app.
  destruct (List.length (newline_indent 1)) as [|n] eqn:En;
    [discriminate En|].
  cbn [Nat.add].
  rewrite parse_members_member.
  rewrite <- (app_nil_r t). subst t.
  rewrite after_value_members.
  - reflexivity.
  - rewrite app_nil_r. lia.
  - simpl. simpl in Hd. inversion Hd; subst. constructor; auto.
Qed.

(** A write that stopped at a chunk leaves no member half way that the
    decoder would accept. *)
Lemma after_value_partial (enc : json -> list pystr)
  (l : list (pystr * pystr)) :
  forall (f : nat) (acc : dict),
    snd (written (_iterencode_dict enc 1 (of_strs l) false
                  ++ [newline_indent 0; [c_rbrace]])) = false ->
    after_value f
      (fst (written (_iterencode_dict enc 1 (of_strs l) false
                     ++ [newline_indent 0; [c_rbrace]]))) acc
    = None.
Proof.
  induction l as [|[k v] l IH]; intros f acc H.
  - discriminate H.
  - revert H.
    cbn [of_strs map _iterencode_dict fst snd scalar_text app].
    fold (of_strs l).
    rewrite <- ?app_assoc. cbn [app].
    rewrite (written_cons (item_separator 1)).
    change (encodable (item_separator 1)) with true. cbv iota.
    rewrite (written_cons (encode_basestring k)).
    destruct (encodable (encode_basestring k)).
    2:{ intros _. cbn [fst]. rewrite after_value_comma. simpl skip_ws.
        apply parse_members_nil. }
    rewrite (written_cons key_separator).
    change (encodable key_separator) with true. cbv iota.
    rewrite (written_cons (encode_basestring v)).
    destruct (encodable (encode_basestring v)).
    2:{ intros _. cbn [fst]. rewrite after_value_comma, skip_ws_string.
        rewrite app_nil_r. apply parse_members_no_value. }
    cbn [fst snd]. intros H.
    rewrite after_value_comma, skip_ws_string.
    destruct f as [|[|f]].
    + reflexivity.
    + apply parse_members_fuel_1.
    + rewrite parse_members_member. now apply IH.
Qed.

Lemma json_loads_partial (l : list (pystr * pystr)) :
  snd (written (iterencode (JObj (of_strs l)) 0)) = false ->
  json_loads (fst (written (iterencode (JObj (of_strs l)) 0)))
  = Raise JSONDecodeError.
Proof.
  destruct l as [|[k v] l]; [discriminate|].
  rewrite iterencode_strs.
  rewrite (written_cons [c_lbrace]).
  change (encodable [c_lbrace]) with true. cbv iota.
  rewrite (written_cons (newline_indent 1)).
  change (encodable (newline_indent 1)) with true. cbv iota.
  rewrite (written_cons (encode_basestring k)).
  destruct (encodable (encode_basestring k)); [|reflexivity].
  rewrite (written_cons key_separator).
  change (encodable key_separator) with true. cbv iota.
  rewrite (written_cons (encode_basestring v)).
  destruct (encodable (encode_basestring v)).
  - cbn [fst snd]. intros H.
    cbn [app]. rewrite json_loads_brace, scan_once_object.
    destruct (List.length _) as [|n].
    + now rewrite parse_members_fuel_1.
    + rewrite parse_members_member, after_value_partial by assumption.
      reflexivity.
  - intros _. cbn [fst]. cbn [app].
    rewrite json_loads_brace, scan_once_object.
    rewrite app_nil_r, parse_members_no_value. reflexivity.
Qed.

End RoundTrip.

(** ** Writing and reading the data file *)

Lemma encodable_app (a b : pystr) :
  encodable (a ++ b) = encodable a && encodable b.
Proof. apply forallb_app. Qed.

Lemma encodable_escape_char (c : char) :
  encodable (escape_char c) = negb (is_surrogate c).
Proof.
  unfold escape_char.
  destruct (c =? c_quote) eqn:E1; [apply N.eqb_eq in E1; subst; reflexivity|].
  destruct (c =? c_backslash) eqn:E2; [apply N.eqb_eq in E2; subst; reflexivity|].
  destruct (c =? 0x08) eqn:E3; [apply N.eqb_eq in E3; subst; reflexivity|].
  destruct (c =? 0x0C) eqn:E4; [apply N.eqb_eq in E4; subst; reflexivity|].
  destruct (c =? 0x0A) eqn:E5; [apply N.eqb_eq in E5; subst; reflexivity|].
  destruct (c =? 0x0D) eqn:E6; [apply N.eqb_eq in E6; subst; reflexivity|].
  destruct (c =? 0x09) eqn:E7; [apply N.eqb_eq in E7; subst; reflexivity|].
  destruct (c <? 0x20) eqn:E8.
  - apply N.ltb_lt in E8.
    assert (E : exists n, (n < 32)%nat /\ c = N.of_nat n).
    { exists (N.to_nat c). split; [lia | now rewrite N2Nat.id]. }
    destruct E as (n & Hn & ->).
    do 32 (destruct n as [|n]; [reflexivity|]). lia.
  - simpl. now rewrite andb_true_r.
Qed.

Lemma encodable_escape (s : pystr) : encodable (escape s) = encodable s.
Proof.
  induction s as [|c s IH]; [reflexivity|].
  simpl escape. rewrite encodable_app, encodable_escape_char, IH. reflexivity.
Qed.

Lemma encodable_encode_basestring (s : pystr) :
  encodable (encode_basestring s) = encodable s.
Proof.
  unfold encode_basestring.
  change (c_quote :: escape s ++ [c_quote])
    with ([c_quote] ++ escape s ++ [c_quote]).
  rewrite !encodable_app, encodable_escape. simpl. now rewrite andb_true_r.
Qed.

Section Persistence.

Context {rt : Runtime}.

Lemma written_members_ok (enc : json -> list pystr)
  (l : list (pystr * pystr)) (first : bool) (tail : list pystr) :
  Forall (fun kv => encodable (fst kv) = true /\ encodable (snd kv) = true) l ->
  snd (written tail) = true ->
  snd (written (_iterencode_dict enc 1 (of_strs l) first ++ tail)) = true.
Proof.
  intros Hl Ht. revert first.
  induction Hl as [|[k v] l [Hk Hv] Hl IH]; intros first; [exact Ht|].
  cbn [of_strs map _iterencode_dict fst snd scalar_text].
  fold (of_strs l). simpl in Hk, Hv.
  assert (E : snd (written (encode_basestring k :: key_separator ::
                     [encode_basestring v]
                     ++ _iterencode_dict enc 1 (of_strs l) false ++ tail))
              = true).
  { rewrite (written_cons (encode_basestring k)).
    rewrite encodable_encode_basestring, Hk.
    cbn [snd]. rewrite (written_cons key_separator).
    change (encodable key_separator) with true. cbv iota. cbn [snd app].
    rewrite (written_cons (encode_basestring v)).
    rewrite encodable_encode_basestring, Hv. cbn [snd]. apply IH. }
  destruct first; cbn [app]; rewrite <- ?app_assoc; cbn [app] in *.
  - exact E.
  - rewrite (written_cons (item_separator 1)).
    change (encodable (item_separator 1)) with true. cbv iota. exact E.
Qed.

(** With no surrogate in a key or a text, every chunk can be written. *)
Lemma written_strs_ok (l : list (pystr * pystr)) :
  Forall (fun kv => encodable (fst kv) = true /\ encodable (snd kv) = true) l ->
  snd (written (iterencode (JObj (of_strs l)) 0)) = true.
Proof.
  intros Hl. destruct l as [|[k v] l]; [reflexivity|].
  change (iterencode (JObj (of_strs ((k, v) :: l))) 0)
    with ([c_lbrace] :: newline_indent 1 ::
          _iterencode_dict (fun x => iterencode x 1) 1
            (of_strs ((k, v) :: l)) true
          ++ [newline_indent 0; [c_rbrace]]).
  rewrite (written_cons [c_lbrace]).
  change (encodable [c_lbrace]) with true. cbv iota. cbn [snd].
  rewrite (written_cons (newline_indent 1)).
  change (encodable (newline_indent 1)) with true. cbv iota. cbn [snd].
  apply written_members_ok; [assumption|reflexivity].
Qed.

Lemma with_file_with_file (w : world) (f g : option pystr) :
  with_file (with_file w f) g = with_file w g.
Proof. reflexivity. Qed.

Lemma with_file_same (w : world) :
  with_file w (data_file (fs w)) = w.
Proof. destruct w as [dm gw [df mk rd wr] lg]. reflexivity. Qed.

Lemma with_file_id (w : world) (t : pystr) :
  data_file (fs w) = Some t -> with_file w (Some t) = w.
Proof. intros <-. apply with_file_same. Qed.

(** What [write_chunks] does to a file that is open. *)
Lemma write_chunks_spec (chunks : list pystr) :
  forall (w : world) (t : pystr),
    data_file (fs w) = Some t ->
    write_chunks chunks w
    = (if snd (written chunks) then Ret tt else Raise UnicodeEncodeError,
       with_file w (Some (t ++ fst (written chunks))), []).
Proof.
  induction chunks as [|c r IH]; intros w t Hf.
  - cbn [write_chunks written fst snd]. unfold ret.
    rewrite app_nil_r, with_file_id by exact Hf. reflexivity.
  - cbn [write_chunks]. rewrite written_cons.
    unfold bind at 1. unfold write, bind, get_world.
    destruct (encodable c); cbn [fst snd].
    + unfold set_data_file. rewrite Hf.
      rewrite (IH (with_file w (Some (t ++ c))) (t ++ c)) by reflexivity.
      rewrite with_file_with_file, <- app_assoc. reflexivity.
    + unfold raise. rewrite !app_nil_r, with_file_id by exact Hf. reflexivity.
Qed.

Lemma save_spec (w : world) :
  _save_group_welcomes w = (Ret tt, saved w, []).
Proof.
  unfold _save_group_welcomes, saved, try_except, open_for_writing.
  unfold bind at 1. unfold bind at 1. unfold get_world at 1.
  destruct (can_write (fs w)) eqn:Ew.
  - unfold set_data_file. unfold bind at 1. unfold get_world at 1.
    unfold bind at 1.
    rewrite (write_chunks_spec _ (with_file w (Some [])) (t := []))
      by reflexivity.
    rewrite with_file_with_file. cbn [app group_welcomes with_file].
    destruct (snd (written (iterencode (group_welcomes w) 0))).
    + unfold bind, lift, logger.
      destruct (py_len (group_welcomes w)); reflexivity.
    + reflexivity.
  - reflexivity.
Qed.

Lemma load_spec (w : world) :
  _load_group_welcomes w = (Ret tt, loaded w, []).
Proof.
  unfold _load_group_welcomes, loaded, try_except.
  unfold bind at 1. unfold get_world at 1.
  destruct (data_file (fs w)) as [t|]; [|reflexivity].
  unfold read_text, bind, get_world, lift, raise, ret.
  destruct (can_read (fs w)); [|reflexivity].
  destruct (json_loads t) as [v|e]; [|reflexivity].
  cbn. destruct (py_len v); reflexivity.
Qed.

End Persistence.

(** ** The handlers, case by case *)

Section Handlers.

Context {rt : Runtime}.

Ltac run :=
  unfold bind, lift, ret, raise, yield, logger, get_world, set_group_welcomes,
    try_except, world_of, outcome_of, yielded in *.

(** [set_welcome], path by path. *)
Lemma set_welcome_spec (ev : event) (message : pystr) (w : world) :
  set_welcome ev message w
  = if negb (str_truthy (get_group_id ev))
    then (Ret tt, w, [plain_result MSG_GROUP_ONLY])
    else if negb (pystr_eqb (role ev) (u "admin"))
    then (Ret tt, w, [plain_result MSG_NO_PERMISSION])
    else if negb (str_truthy (strip message))
    then (Ret tt, w, [plain_result MSG_EMPTY])
    else
      match py_setitem (group_welcomes w) (get_group_id ev) (JStr message) with
      | Ret d =>
          (Ret tt,
           with_log (saved (with_group_welcomes w d)) INFO
                    (LogWelcomeSet (get_group_id ev)),
           [plain_result (MSG_SET_OK ++ message)])
      | Raise e =>
          (Ret tt, with_log w ERROR (LogSetFailed e),
           [plain_result (MSG_SET_FAILED ++ exn_message e)])
      end.
Proof.
  unfold set_welcome, try_except.
  destruct (negb (str_truthy (get_group_id ev))); [reflexivity|].
  destruct (negb (pystr_eqb (role ev) (u "admin"))); [reflexivity|].
  destruct (negb (str_truthy (strip message))); [reflexivity|].
  unfold bind at 1. unfold get_world at 1.
  unfold bind at 1. unfold lift at 1.
  destruct (py_setitem _ _ _) as [d|e]; [|reflexivity].
  unfold bind at 1. unfold set_group_welcomes at 1.
  unfold bind at 1. rewrite save_spec. reflexivity.
Qed.

(** [view_welcome], path by path. *)
Lemma view_welcome_spec (ev : event) (w : world) :
  view_welcome ev w
  = if negb (str_truthy (get_group_id ev))
    then (Ret tt, w, [plain_result MSG_GROUP_ONLY])
    else if negb (pystr_eqb (role ev) (u "admin"))
    then (Ret tt, w, [plain_result MSG_NO_PERMISSION])
    else
      match py_get (group_welcomes w) (get_group_id ev)
                   (JStr (default_message w)) with
      | Ret v => (Ret tt, w, [plain_result (MSG_CURRENT ++ py_str v)])
      | Raise e =>
          (Ret tt, with_log w ERROR (LogViewFailed e),
           [plain_result (MSG_VIEW_FAILED ++ exn_message e)])
      end.
Proof.
  unfold view_welcome, try_except, get_welcome.
  destruct (negb (str_truthy (get_group_id ev))); [reflexivity|].
  destruct (negb (pystr_eqb (role ev) (u "admin"))); [reflexivity|].
  run. destruct (py_get _ _ _); reflexivity.
Qed.

(** [handle_group_increase], path by path. *)
Lemma handle_group_increase_spec (ev : event) (w : world) :
  handle_group_increase ev w
  = match payload ev with
    | None => (Ret tt, w, [])
    | Some raw =>
        if is_group_increase raw then
          let g := py_str (dict_get raw (u "group_id") (JStr [])) in
          match py_int (dict_get raw (u "user_id") (JInt 0)) with
          | Raise e => (Ret tt, with_log w ERROR (LogJoinFailed e), [])
          | Ret uid =>
              if negb (str_truthy g) || (uid =? 0)%Z then (Ret tt, w, [])
              else
                match py_get (group_welcomes w) g
                             (JStr (default_message w)) with
                | Raise e => (Ret tt, with_log w ERROR (LogJoinFailed e), [])
                | Ret v =>
                    (Ret tt, with_log w INFO (LogNewMember uid g),
                     [chain_result [At uid; Plain (c_space :: py_str v)]])
                end
          end
        else (Ret tt, w, [])
    end.
Proof.
  unfold handle_group_increase, payload, try_except.
  destruct (message_obj ev) as [mo|]; [|reflexivity].
  destruct (raw_message mo) as [[| | | | | |[|p raw]]|]; try reflexivity.
  fold (is_group_increase (p :: raw)).
  destruct (is_group_increase (p :: raw)); [|reflexivity].
  unfold get_welcome. run.
  destruct (py_int _) as [uid|e]; [|reflexivity].
  destruct (negb _ || _); [reflexivity|].
  destruct (py_get _ _ _); reflexivity.
Qed.

(** A join notice never raises and touches neither the mapping nor the
    disk. *)
Lemma handle_group_increase_frame (ev : event) (w : world) :
  outcome_of (handle_group_increase ev w) = Ret tt
  /\ group_welcomes (world_of (handle_group_increase ev w)) = group_welcomes w
  /\ fs (world_of (handle_group_increase ev w)) = fs w
  /\ default_message (world_of (handle_group_increase ev w))
     = default_message w.
Proof.
  rewrite handle_group_increase_spec.
  destruct (payload ev) as [raw|]; [|now repeat split].
  destruct (is_group_increase raw); [|now repeat split].
  cbv zeta.
  destruct (py_int _) as [uid|e]; [|now repeat split].
  destruct (negb _ || _); [now repeat split|].
  destruct (py_get _ _ _); now repeat split.
Qed.

Lemma initialize_spec (w : world) :
  initialize w
  = if can_mkdir (fs w)
    then (Ret tt, with_log (loaded w) INFO LogInitialized, [])
    else (Ret tt, with_log w ERROR (LogInitFailed OSError), []).
Proof.
  unfold initialize, try_except, mkdir.
  unfold bind at 1. unfold bind at 1. unfold get_world at 1.
  destruct (can_mkdir (fs w)); [|reflexivity].
  unfold ret at 1. unfold bind at 1. rewrite load_spec. reflexivity.
Qed.

Lemma terminate_spec (w : world) :
  terminate w = (Ret tt, with_log (saved w) INFO LogTerminated, []).
Proof.
  unfold terminate, try_except. unfold bind at 1. rewrite save_spec.
  reflexivity.
Qed.

(** ** The invariant *)

Lemma inv_with_log (w : world) (l : level) (m : log_message) :
  inv w -> inv (with_log w l m).
Proof. intros H; exact H. Qed.

Lemma inv_saved (w : world) : inv w -> inv (saved w).
Proof.
  intros [Hs Hf]. destruct Hs as (l & Hl & Hd & Hn).
  assert (Hs : good_store (group_welcomes w)) by (exists l; auto).
  unfold saved. destruct (can_write (fs w)); [|split; assumption].
  assert (Hfile : good_file
                    (Some (fst (written (iterencode (group_welcomes w) 0))))).
  { rewrite Hl. simpl.
    destruct (snd (written (iterencode (JObj (of_strs l)) 0))) eqn:Ew.
    - right. exists (JObj (of_strs l)). split.
      + rewrite written_all by assumption. now apply json_loads_dumps_strs.
      + exists l; auto.
    - left. now apply json_loads_partial. }
  destruct (snd (written _)); [destruct (py_len _)|]; split; assumption.
Qed.

Lemma inv_loaded (w : world) : inv w -> inv (loaded w).
Proof.
  intros [Hs Hf]. unfold loaded.
  destruct (data_file (fs w)) as [t|] eqn:Et.
  2:{ split; [apply good_store_empty | simpl; now rewrite Et]. }
  assert (Hf' : good_file (Some t)) by exact Hf.
  destruct (can_read (fs w)).
  2:{ split; [apply good_store_empty | simpl; now rewrite Et]. }
  destruct (json_loads t) as [v|e] eqn:Ev.
  2:{ split; [apply good_store_empty | simpl; now rewrite Et]. }
  destruct (py_len v).
  - split; [|simpl; now rewrite Et].
    simpl. destruct Hf' as [Hbad|(v' & Hv' & Hgood)].
    + rewrite Ev in Hbad. discriminate.
    + rewrite Ev in Hv'. now injection Hv' as ->.
  - split; [apply good_store_empty | simpl; now rewrite Et].
Qed.

Lemma inv_set_welcome (ev : event) (message : pystr) (w : world) :
  inv w -> inv (world_of (set_welcome ev message w)).
Proof.
  intros Hi. rewrite set_welcome_spec.
  destruct (negb (str_truthy (get_group_id ev))); [exact Hi|].
  destruct (negb (pystr_eqb (role ev) (u "admin"))); [exact Hi|].
  destruct (negb (str_truthy (strip message))) eqn:Eb; [exact Hi|].
  destruct Hi as [(l & Hl & Hd & Hn) Hf].
  rewrite Hl. cbn [py_setitem]. unfold world_of. cbn [fst snd].
  apply inv_with_log, inv_saved. split; [|exact Hf].
  apply good_store_setitem; auto.
  apply negb_false_iff in Eb. now apply str_truthy_true.
Qed.

Lemma inv_step (w w' : world) : inv w -> step w w' -> inv w'.
Proof.
  intros Hi Hs. destruct Hs.
  - rewrite initialize_spec. destruct (can_mkdir (fs w)).
    + now apply inv_with_log, inv_loaded.
    + now apply inv_with_log.
  - rewrite terminate_spec. now apply inv_with_log, inv_saved.
  - rewrite load_spec. now apply inv_loaded.
  - rewrite save_spec. now apply inv_saved.
  - destruct (handle_group_increase_frame ev w) as (_ & Hg & Hf & _).
    destruct Hi as [Hs Hfile]. split.
    + now rewrite Hg.
    + now rewrite Hf.
  - now apply inv_set_welcome.
  - rewrite view_welcome_spec.
    destruct (negb (str_truthy (get_group_id ev))); [exact Hi|].
    destruct (negb (pystr_eqb (role ev) (u "admin"))); [exact Hi|].
    destruct (py_get _ _ _); exact Hi.
  - split; [apply good_store_empty | apply Hi].
  - exact Hi.
Qed.

(** Every reachable state satisfies the invariant. *)
Lemma reachable_inv (w : world) : reachable w -> inv w.
Proof.
  induction 1 as [default mk rd wr|w w' _ IH Hs].
  - split; [apply good_store_empty | exact I].
  - eapply inv_step; eassumption.
Qed.

End Handlers.

(** ** The properties of the specification *)

Section Claims.

Context {rt : Runtime}.

Lemma group_welcomes_saved (w : world) :
  group_welcomes (saved w) = group_welcomes w.
Proof.
  unfold saved. destruct (can_write (fs w)); [|reflexivity].
  destruct (snd _); [destruct (py_len _)|]; reflexivity.
Qed.

Lemma default_message_saved (w : world) :
  default_message (saved w) = default_message w.
Proof.
  unfold saved. destruct (can_write (fs w)); [|reflexivity].
  destruct (snd _); [destruct (py_len _)|]; reflexivity.
Qed.

Lemma py_setitem_ret (v : json) (k : pystr) (x d : json) :
  py_setitem v k x = Ret d ->
  exists d0, v = JObj d0 /\ d = JObj (dict_setitem d0 k x).
Proof.
  destruct v; simpl; try discriminate.
  intros H. injection H as <-. eauto.
Qed.

Lemma dict_get_setitem_same (d : dict) (k : pystr) (v default : json) :
  dict_get (dict_setitem d k v) k default = v.
Proof. unfold dict_get. now rewrite dict_lookup_setitem_same. Qed.

Lemma dict_get_of_strs (l : list (pystr * pystr)) (k s : pystr) :
  exists t, dict_get (of_strs l) k (JStr s) = JStr t.
Proof.
  unfold dict_get. induction l as [|[k' v'] l IH]; simpl; [eauto|].
  destruct (pystr_eqb k k'); eauto.
Qed.

Lemma payload_some (ev : event) (raw : dict) :
  payload ev = Some raw <->
  exists mo, message_obj ev = Some mo /\ raw_message mo = Some (JObj raw)
             /\ raw <> [].
Proof.
  unfold payload. split.
  - destruct (message_obj ev) as [mo|]; [|discriminate].
    destruct (raw_message mo) as [[| | | | | |[|p r]]|] eqn:Er;
      try discriminate.
    intros H. injection H as <-. exists mo.
    split; [reflexivity|split; [exact Er|discriminate]].
  - intros (mo & -> & -> & Hne). destruct raw; [contradiction|reflexivity].
Qed.

Lemma eq_str_dict_get (raw : dict) (k s : pystr) :
  eq_str (dict_get raw k JNull) s = true <->
  dict_lookup raw k = Some (JStr s).
Proof.
  unfold dict_get. destruct (dict_lookup raw k) as [v|]; simpl.
  - destruct v; simpl; try (split; [discriminate|intros H; discriminate H]).
    rewrite pystr_eqb_eq. split; [now intros ->|].
    intros H. now injection H.
  - split; discriminate.
Qed.

Lemma strip_nil_not_truthy (s : pystr) :
  strip s = [] -> negb (str_truthy (strip s)) = true.
Proof. now intros ->. Qed.

(** C1: for every group and every text that is not blank, once
    [set_welcome] has succeeded (it has answered with the confirmation),
    looking up the welcome text of the group returns exactly the text that
    was given, untrimmed, and the view command shows it. *)
Theorem set_then_get (ev : event) (text : pystr) (w : world) :
  nonblank text ->
  yielded (set_welcome ev text w) = [plain_result (MSG_SET_OK ++ text)] ->
  get_welcome (get_group_id ev) (world_of (set_welcome ev text w))
  = (Ret (JStr text), world_of (set_welcome ev text w), [])
  /\ yielded (view_welcome ev (world_of (set_welcome ev text w)))
     = [plain_result (MSG_CURRENT ++ text)].
Proof.
  intros _. rewrite view_welcome_spec, set_welcome_spec.
  destruct (negb (str_truthy (get_group_id ev))) eqn:E1.
  { intros H. injection H as H. vm_compute in H. discriminate H. }
  destruct (negb (pystr_eqb (role ev) (u "admin"))) eqn:E2.
  { intros H. injection H as H. vm_compute in H. discriminate H. }
  destruct (negb (str_truthy (strip text))) eqn:E3.
  { intros H. injection H as H. vm_compute in H. discriminate H. }
  destruct (py_setitem _ _ _) as [d|e] eqn:Es.
  2:{ intros H. injection H as H. vm_compute in H. discriminate H. }
  intros _. apply py_setitem_ret in Es as (d0 & Hw & ->).
  unfold world_of, yielded, get_welcome, bind, get_world, lift.
  cbn [fst snd group_welcomes default_message with_log].
  rewrite group_welcomes_saved, default_message_saved.
  cbn [group_welcomes default_message with_group_welcomes py_get].
  rewrite dict_get_setitem_same. cbn [py_str app]. split; reflexivity.
Qed.

(** C2: in every reachable state, an event that matches the join shape
    makes the handler yield exactly one result: a mention of the joining
    member, then one space followed by the text [get_welcome] returns for
    the group. *)
Theorem join_reply (ev : event) (g : pystr) (uid : Z) (w : world) :
  reachable w ->
  join_shape ev g uid ->
  exists text,
    get_welcome g w = (Ret (JStr text), w, [])
    /\ yielded (handle_group_increase ev w)
       = [chain_result [At uid; Plain (c_space :: text)]].
Proof.
  intros Hr (mo & raw & Hmo & Hraw & Hne & Hpt & Hnt & Hg & Hgne & Hu & Hune).
  destruct (reachable_inv Hr) as [(l & Hl & _) _].
  destruct (dict_get_of_strs l g (default_message w)) as [text Ht].
  exists text.
  assert (Hget : py_get (group_welcomes w) g (JStr (default_message w))
                 = Ret (JStr text)).
  { rewrite Hl. simpl. now rewrite Ht. }
  split.
  - unfold get_welcome, bind, get_world, lift. now rewrite Hget.
  - rewrite handle_group_increase_spec.
    assert (Hp : payload ev = Some raw) by (apply payload_some; eauto).
    rewrite Hp. unfold is_group_increase.
    rewrite (proj2 (eq_str_dict_get raw (u "post_type") (u "notice")) Hpt).
    rewrite (proj2 (eq_str_dict_get raw (u "notice_type")
                                    (u "group_increase")) Hnt).
    cbv zeta. cbn [andb]. rewrite Hu, Hg.
    apply str_truthy_true in Hgne. rewrite Hgne.
    apply Z.eqb_neq in Hune. rewrite Hune. cbn [negb orb].
    rewrite Hget. reflexivity.
Qed.

(** C3: for every group and every text that is empty once trimmed,
    [set_welcome] ends normally, changes nothing at all, and, for an
    administrator inside a group, answers with the validation message. *)
Theorem blank_text_rejected (ev : event) (text : pystr) (w : world) :
  strip text = [] ->
  outcome_of (set_welcome ev text w) = Ret tt
  /\ world_of (set_welcome ev text w) = w
  /\ (in_group ev -> is_admin ev ->
      yielded (set_welcome ev text w) = [plain_result MSG_EMPTY]).
Proof.
  intros Hb. rewrite set_welcome_spec, (strip_nil_not_truthy _ Hb).
  destruct (negb (str_truthy (get_group_id ev))) eqn:E1.
  { repeat split. intros Hg. apply str_truthy_true in Hg.
    rewrite Hg in E1. discriminate. }
  destruct (negb (pystr_eqb (role ev) (u "admin"))) eqn:E2.
  { repeat split. intros _ Ha. unfold is_admin in Ha.
    rewrite Ha, pystr_eqb_refl in E2. discriminate. }
  repeat split.
Qed.

Lemma mapping_encodable_strs (l : list (pystr * pystr)) :
  mapping_encodable (JObj (of_strs l)) = true ->
  Forall (fun kv => encodable (fst kv) = true /\ encodable (snd kv) = true) l.
Proof.
  simpl. induction l as [|[k v] l IH]; simpl; intros H; constructor.
  - apply andb_true_iff in H as [H _]. now apply andb_true_iff in H.
  - apply IH. now apply andb_true_iff in H as [_ H].
Qed.



(** C6: both commands answer that they only work in a group chat when the
    event has no group identifier, whatever the role, and answer that the
    permission is missing when it has one and the role is not [admin]; in
    both cases nothing changes. *)
Theorem commands_gated (ev : event) (text : pystr) (w : world) :
  (get_group_id ev = [] ->
   set_welcome ev text w = (Ret tt, w, [plain_result MSG_GROUP_ONLY])
   /\ view_welcome ev w = (Ret tt, w, [plain_result MSG_GROUP_ONLY]))
  /\ (get_group_id ev <> [] -> role ev <> u "admin" ->
      set_welcome ev text w = (Ret tt, w, [plain_result MSG_NO_PERMISSION])
      /\ view_welcome ev w = (Ret tt, w, [plain_result MSG_NO_PERMISSION])).
Proof.
  rewrite set_welcome_spec, view_welcome_spec. split.
  - intros ->. split; reflexivity.
  - intros Hg Ha. apply str_truthy_true in Hg. rewrite Hg.
    rewrite (pystr_eqb_neq Ha). split; reflexivity.
Qed.

(** C7: an event that does not match the join shape, for whatever reason,
    makes the handler yield nothing and leaves the mapping and the disk as
    they were. *)
Theorem non_join_ignored (ev : event) (w : world) :
  (forall g uid, ~ join_shape ev g uid) ->
  outcome_of (handle_group_increase ev w) = Ret tt
  /\ yielded (handle_group_increase ev w) = []
  /\ group_welcomes (world_of (handle_group_increase ev w)) = group_welcomes w
  /\ fs (world_of (handle_group_increase ev w)) = fs w.
Proof.
  intros Hn.
  destruct (handle_group_increase_frame ev w) as (Ho & Hg & Hf & _).
  repeat split; try assumption.
  rewrite handle_group_increase_spec.
  destruct (payload ev) as [raw|] eqn:Ep; [|reflexivity].
  destruct (is_group_increase raw) eqn:Ei; [|reflexivity].
  cbv zeta.
  destruct (py_int _) as [uid|e] eqn:Eu; [|reflexivity].
  destruct (negb _ || _) eqn:Ec; [reflexivity|].
  exfalso. apply orb_false_iff in Ec as [Ec1 Ec2].
  apply negb_false_iff, str_truthy_true in Ec1.
  apply Z.eqb_neq in Ec2.
  apply payload_some in Ep as (mo & Hmo & Hraw & Hne).
  unfold is_group_increase in Ei. apply andb_true_iff in Ei as [Ei1 Ei2].
  apply eq_str_dict_get in Ei1, Ei2.
  apply (Hn (py_str (dict_get raw (u "group_id") (JStr []))) uid).
  exists mo, raw. repeat split; assumption.
Qed.

(** C8: in every reachable state the mapping is a dictionary from strings
    to strings with unique keys, one entry per group at most, in which no
    text is blank, hence none is the empty string. *)
Theorem store_invariants (w : world) :
  reachable w ->
  exists l,
    group_welcomes w = JObj (of_strs l)
    /\ NoDup (map fst l)
    /\ Forall (fun kv => nonblank (snd kv) /\ snd kv <> []) l.
Proof.
  intros Hr. destruct (reachable_inv Hr) as [(l & Hl & Hd & Hn) _].
  exists l. repeat split; try assumption.
  eapply Forall_impl; [|exact Hn]. intros [k v] H. split; [exact H|].
  simpl in *. intros ->. now apply H.
Qed.

(** C9: in every reachable state [get_welcome] returns a value for every
    group, and for a group the mapping has no entry for, that value is the
    default text. *)
Theorem default_for_unset (w : world) (g : pystr) :
  reachable w ->
  (exists v, get_welcome g w = (Ret v, w, []))
  /\ (~ In g (stored_keys w) ->
      get_welcome g w = (Ret (JStr (default_message w)), w, [])).
Proof.
  intros Hr. destruct (reachable_inv Hr) as [(l & Hl & _) _].
  unfold get_welcome, bind, get_world, lift, stored_keys. rewrite Hl.
  cbn [py_get]. split; [eauto|].
  intros Hin. unfold dict_get. now rewrite dict_lookup_none.
Qed.

(** C10: in every reachable state, a set command of an administrator
    inside a group with a text that is not blank updates the mapping and
    is answered with the confirmation that echoes the text, whether the
    file could be written or not; when the disk refuses the write, the
    failure is logged, the file stays as it was, and the answer is the
    same. *)
Theorem set_survives_write_failure (ev : event) (text : pystr) (w : world) :
  reachable w ->
  in_group ev -> is_admin ev -> nonblank text ->
  outcome_of (set_welcome ev text w) = Ret tt
  /\ yielded (set_welcome ev text w) = [plain_result (MSG_SET_OK ++ text)]
  /\ (exists d,
        group_welcomes w = JObj d
        /\ group_welcomes (world_of (set_welcome ev text w))
           = JObj (dict_setitem d (get_group_id ev) (JStr text)))
  /\ (can_write (fs w) = false ->
      fs (world_of (set_welcome ev text w)) = fs w
      /\ log (world_of (set_welcome ev text w))
         = log w ++ [(ERROR, LogSaveFailed OSError);
                     (INFO, LogWelcomeSet (get_group_id ev))]).
Proof.
  intros Hr Hg Ha Hn.
  destruct (reachable_inv Hr) as [(l & Hl & _) _].
  rewrite set_welcome_spec.
  apply str_truthy_true in Hg. rewrite Hg.
  unfold is_admin in Ha. rewrite Ha, pystr_eqb_refl.
  apply str_truthy_true in Hn. rewrite Hn. cbn [negb].
  rewrite Hl. cbn [py_setitem]. unfold outcome_of, yielded, world_of.
  cbn [fst snd]. repeat split.
  - exists (of_strs l). split; [reflexivity|].
    cbn [group_welcomes with_log]. now rewrite group_welcomes_saved.
  - unfold saved. cbn [fs with_group_welcomes]. now rewrite H.
  - unfold saved. cbn [fs with_group_welcomes]. rewrite H.
    cbn [log with_log with_group_welcomes]. now rewrite <- app_assoc.
Qed.

End Claims.

(** ** The properties on concrete worlds *)

Lemma fresh_world_reachable : reachable (rt := sample_runtime) fresh_world.
Proof. apply (reach_init (rt := sample_runtime)). Qed.

Lemma greeted_world_reachable : reachable (rt := sample_runtime) greeted_world.
Proof.
  eapply reach_step; [apply fresh_world_reachable|].
  apply (step_set (rt := sample_runtime)).
Qed.

Lemma surrogate_world_reachable :
  reachable (rt := sample_runtime) surrogate_world.
Proof.
  eapply reach_step; [apply fresh_world_reachable|].
  apply (step_set (rt := sample_runtime)).
Qed.

Lemma readonly_world_reachable :
  reachable (rt := sample_runtime) readonly_world.
Proof. apply (reach_init (rt := sample_runtime)). Qed.

(** C1 on the scenario of the specification: after the text of group 100
    is set to ["Hi there"], it is what the lookup returns. *)
Lemma set_then_get_witness :
  nonblank (u "Hi there")
  /\ get_welcome (u "100") greeted_world
     = (Ret (JStr (u "Hi there")), greeted_world, []).
Proof.
  assert (Hn : nonblank (u "Hi there")).
  { intros H. vm_compute in H. discriminate H. }
  split; [exact Hn|].
  exact (proj1 (@set_then_get sample_runtime admin_command (u "Hi there")
                              fresh_world Hn eq_refl)).
Defined.

(** C2 on the scenario of the specification: empty mapping, default
    ["Welcome!"], member 12345 joins group 100. *)
Lemma join_reply_witness :
  yielded (handle_group_increase (rt := sample_runtime)
             (join_event (JInt 100) (JInt 12345)) fresh_world)
  = [chain_result [At 12345; Plain (u " Welcome!")]].
Proof.
  destruct (@join_reply sample_runtime (join_event (JInt 100) (JInt 12345))
                        (u "100") 12345%Z fresh_world)
    as (text & Hget & Hy).
  - apply fresh_world_reachable.
  - eexists _, _. repeat split; try reflexivity; discriminate.
  - rewrite Hy. vm_compute in Hget. injection Hget as <-. reflexivity.
Defined.

(** C3 on a text of three spaces. *)
Lemma blank_text_rejected_witness :
  world_of (set_welcome (rt := sample_runtime) admin_command (u "   ")
                        fresh_world) = fresh_world
  /\ yielded (set_welcome (rt := sample_runtime) admin_command (u "   ")
                          fresh_world) = [plain_result MSG_EMPTY].
Proof.
  destruct (@blank_text_rejected sample_runtime admin_command (u "   ")
                                 fresh_world eq_refl) as (_ & Hw & Hy).
  split; [exact Hw|]. apply Hy.
  - intros H. vm_compute in H. discriminate H.
  - reflexivity.
Defined.


(** The same loss on a disk that refuses writes: the text set in memory
    never reaches the file, and loading forgets it. *)
Lemma save_load_loses_on_readonly_disk :
  let w := world_of (set_welcome (rt := sample_runtime) admin_command
                                 (u "Hi there") readonly_world) in
  reachable (rt := sample_runtime) w
  /\ group_welcomes w = JObj [(u "100", JStr (u "Hi there"))]
  /\ group_welcomes (world_of (save_then_load (rt := sample_runtime) w))
     = JObj [].
Proof.
  split; [|split; reflexivity].
  eapply reach_step; [apply readonly_world_reachable|].
  apply (step_set (rt := sample_runtime)).
Qed.


(** C5: the code breaks the claim on a readable data file that holds the
    JSON array [[1]].  The text is valid JSON but not a string to string
    mapping, so the claim has the mapping reset to empty and the failure
    logged; [_load_group_welcomes] instead assigns the array to
    [group_welcomes], leaves it non-empty and logs a successful load of
    one entry at INFO. *)
Lemma load_keeps_array :
  data_file (fs array_file_world) = Some (u "[1]")
  /\ can_read (fs array_file_world) = true
  /\ ~ parses_as_mapping (u "[1]")
  /\ outcome_of (_load_group_welcomes array_file_world) = Ret tt
  /\ group_welcomes (world_of (_load_group_welcomes array_file_world))
     = JArr [JInt 1]
  /\ group_welcomes (world_of (_load_group_welcomes array_file_world))
     <> JObj []
  /\ log (world_of (_load_group_welcomes array_file_world))
     = [(INFO, LogLoaded 1)].
Proof.
  split; [reflexivity|]. split; [reflexivity|]. split.
  { intros (l & H). vm_compute in H. discriminate H. }
  split; [reflexivity|]. split; [reflexivity|]. split; [|reflexivity].
  intros H. vm_compute in H. discriminate H.
Qed.

(** C6 on a member outside a group and on a member inside group 100. *)
Lemma commands_gated_witness :
  view_welcome (rt := sample_runtime) (command_event [] (u "member"))
               fresh_world
  = (Ret tt, fresh_world, [plain_result MSG_GROUP_ONLY])
  /\ set_welcome (rt := sample_runtime) (command_event (u "100") (u "member"))
                 (u "Hi there") fresh_world
     = (Ret tt, fresh_world, [plain_result MSG_NO_PERMISSION]).
Proof.
  split.
  - exact (proj2 (proj1 (@commands_gated sample_runtime
                           (command_event [] (u "member")) (u "Hi there")
                           fresh_world) eq_refl)).
  - refine (proj1 (proj2 (@commands_gated sample_runtime
                            (command_event (u "100") (u "member"))
                            (u "Hi there") fresh_world) _ _)).
    + intros H. vm_compute in H. discriminate H.
    + intros H. vm_compute in H. discriminate H.
Defined.

(** C7 on an ordinary message in the world where group 100 has a text. *)
Lemma non_join_ignored_witness :
  yielded (handle_group_increase (rt := sample_runtime) message_event
                                 greeted_world) = []
  /\ group_welcomes (world_of (handle_group_increase (rt := sample_runtime)
                                 message_event greeted_world))
     = group_welcomes greeted_world.
Proof.
  destruct (@non_join_ignored sample_runtime message_event greeted_world)
    as (_ & Hy & Hg & _).
  - intros g uid (mo & raw & Hmo & Hraw & _ & Hpt & _).
    injection Hmo as <-. injection Hraw as <-.
    vm_compute in Hpt. discriminate Hpt.
  - split; assumption.
Defined.

(** C8 on the world where group 100 has a text, and on the fresh world,
    whose mapping is empty. *)
Lemma store_invariants_witness :
  (exists l, group_welcomes greeted_world = JObj (of_strs l)
             /\ NoDup (map fst l)
             /\ Forall (fun kv => nonblank (snd kv) /\ snd kv <> []) l)
  /\ group_welcomes fresh_world = JObj [].
Proof.
  split; [|reflexivity].
  exact (@store_invariants sample_runtime greeted_world
                           greeted_world_reachable).
Defined.

(** C9 on the scenario of the specification: nothing is set for group
    100, the lookup returns the default. *)
Lemma default_for_unset_witness :
  get_welcome (u "100") fresh_world
  = (Ret (JStr (u "Welcome!")), fresh_world, []).
Proof.
  refine (proj2 (@default_for_unset sample_runtime fresh_world (u "100")
                                    fresh_world_reachable) _).
  intros H. exact H.
Defined.

(** C10 on a disk that refuses writes. *)
Lemma set_survives_write_failure_witness :
  can_write (fs readonly_world) = false
  /\ yielded (set_welcome (rt := sample_runtime) admin_command (u "Hi there")
                          readonly_world)
     = [plain_result (MSG_SET_OK ++ u "Hi there")]
  /\ group_welcomes (world_of (set_welcome (rt := sample_runtime)
                                 admin_command (u "Hi there") readonly_world))
     = JObj [(u "100", JStr (u "Hi there"))]
  /\ data_file (fs (world_of (set_welcome (rt := sample_runtime)
                                admin_command (u "Hi there") readonly_world)))
     = None.
Proof.
  destruct (@set_survives_write_failure sample_runtime admin_command
              (u "Hi there") readonly_world readonly_world_reachable)
    as (_ & Hy & (d & Hd & Hg) & Hf).
  - intros H. vm_compute in H. discriminate H.
  - reflexivity.
  - intros H. vm_compute in H. discriminate H.
  - split; [reflexivity|]. split; [exact Hy|]. split.
    + rewrite Hg. injection Hd as <-. reflexivity.
    + destruct (Hf eq_refl) as [Hfs _]. now rewrite Hfs.
Defined.

(** ** The codec on a few texts *)

Example loads_array :
  json_loads (u " [1, -20, 2.5e3, null, true, [ ], {}] ")
  = Ret (JArr [JInt 1; JInt (-20); JFloat (u "2.5e3"); JNull; JBool true;
               JArr []; JObj []]).
Proof. reflexivity. Qed.

Example loads_leading_zero : json_loads (u "012") = Raise JSONDecodeError.
Proof. reflexivity. Qed.

Example loads_trailing_comma : json_loads (u "[1,]") = Raise JSONDecodeError.
Proof. reflexivity. Qed.

Example loads_scalar_has_no_length :
  json_loads (u "5") = Ret (JInt 5) /\ py_len (JInt 5) = Raise TypeError.
Proof. split; reflexivity. Qed.

Example dumps_two_groups :
  json_dumps (rt := sample_runtime)
    (JObj [(u "100", JStr (u "Hi")); (u "200", JStr (u "你好"))])
  = c_lbrace :: c_newline :: u "  " ++ encode_basestring (u "100")
    ++ u ": " ++ encode_basestring (u "Hi") ++ u "," ++ c_newline :: u "  "
    ++ encode_basestring (u "200") ++ u ": " ++ encode_basestring (u "你好")
    ++ [c_newline; c_rbrace].
Proof. reflexivity. Qed.

Example loads_dumps_nested :
  let v := JObj [(u "a", JArr [JInt 1; JObj [(u "b", JStr [0x0A; c_quote])]]);
                 (u "c", JNull)] in
  json_loads (json_dumps (rt := sample_runtime) v) = Ret v.
Proof. reflexivity. Qed.

Example loads_keeps_last_duplicate :
  json_loads (c_lbrace :: encode_basestring (u "a") ++ u ":1,"
              ++ encode_basestring (u "a") ++ u ":2}")
  = Ret (JObj [(u "a", JInt 2)]).
Proof. reflexivity. Qed.

(** * More properties of the plugin *)

Section Extras.

Context {rt : Runtime}.

(** ** Helpers *)

Lemma saved_flags (w : world) :
  can_mkdir (fs (saved w)) = can_mkdir (fs w)
  /\ can_read (fs (saved w)) = can_read (fs w)
  /\ can_write (fs (saved w)) = can_write (fs w).
Proof.
  unfold saved. destruct (can_write (fs w)) eqn:E.
  - destruct (snd _); [destruct (py_len _)|]; simpl; now rewrite E.
  - simpl. now rewrite E.
Qed.

Lemma saved_data_file (w : world) :
  data_file (fs (saved w))
  = if can_write (fs w)
    then Some (fst (written (iterencode (group_welcomes w) 0)))
    else data_file (fs w).
Proof.
  unfold saved. destruct (can_write (fs w)); [|reflexivity].
  destruct (snd _); [destruct (py_len _)|]; reflexivity.
Qed.

Lemma saved_unwritable (w : world) :
  can_write (fs w) = false -> fs (saved w) = fs w.
Proof. intros H. unfold saved. now rewrite H. Qed.

Lemma lstrip_nil (s : pystr) :
  lstrip s = [] <-> forallb py_isspace s = true.
Proof.
  induction s as [|c s IH]; simpl; [tauto|].
  destruct (py_isspace c); simpl; [exact IH|].
  split; discriminate.
Qed.

Lemma lstrip_head (s : pystr) (c : char) (r : pystr) :
  lstrip s = c :: r -> py_isspace c = false.
Proof.
  induction s as [|a s IH]; simpl; [discriminate|].
  destruct (py_isspace a) eqn:E; [exact IH|].
  intros H. injection H as <- _. exact E.
Qed.

(** A text strips to nothing exactly when all of it is white space. *)
Lemma strip_nil (s : pystr) :
  strip s = [] <-> forallb py_isspace s = true.
Proof.
  unfold strip, rstrip. split.
  - intros H. apply lstrip_nil.
    destruct (lstrip s) as [|c r] eqn:E; [reflexivity|exfalso].
    apply lstrip_head in E.
    assert (H' : lstrip (rev (c :: r)) = []).
    { rewrite <- (rev_involutive (lstrip (rev (c :: r)))), H. reflexivity. }
    apply lstrip_nil in H'. rewrite forallb_forall in H'.
    specialize (H' c). rewrite E in H'.
    assert (false = true); [|discriminate].
    apply H'. apply -> in_rev. now left.
  - intros H. apply lstrip_nil in H. now rewrite H.
Qed.

(** What the join handler does on an event of the join shape, given what
    the lookup returns. *)
Lemma handle_join_shape (ev : event) (g : pystr) (uid : Z) (w : world) :
  join_shape ev g uid ->
  handle_group_increase ev w
  = match py_get (group_welcomes w) g (JStr (default_message w)) with
    | Raise e => (Ret tt, with_log w ERROR (LogJoinFailed e), [])
    | Ret v =>
        (Ret tt, with_log w INFO (LogNewMember uid g),
         [chain_result [At uid; Plain (c_space :: py_str v)]])
    end.
Proof.
  intros (mo & raw & Hmo & Hraw & Hne & Hpt & Hnt & Hg & Hgne & Hu & Hune).
  rewrite handle_group_increase_spec.
  assert (Hp : payload ev = Some raw) by (apply payload_some; eauto).
  rewrite Hp. unfold is_group_increase.
  rewrite (proj2 (eq_str_dict_get raw (u "post_type") (u "notice")) Hpt).
  rewrite (proj2 (eq_str_dict_get raw (u "notice_type")
                                  (u "group_increase")) Hnt).
  cbv zeta. cbn [andb]. rewrite Hu, Hg.
  apply str_truthy_true in Hgne. rewrite Hgne.
  apply Z.eqb_neq in Hune. rewrite Hune. reflexivity.
Qed.

(** ** No method raises *)

(** X1: Every method of the plugin ends normally in every world, also one the
    plugin cannot reach; the persistence methods yield nothing, each
    command yields exactly one result and the join handler at most one. *)
Theorem methods_never_raise (ev : event) (text : pystr) (w : world) :
  (outcome_of (initialize w) = Ret tt /\ yielded (initialize w) = [])
  /\ (outcome_of (terminate w) = Ret tt /\ yielded (terminate w) = [])
  /\ (outcome_of (_load_group_welcomes w) = Ret tt
      /\ yielded (_load_group_welcomes w) = [])
  /\ (outcome_of (_save_group_welcomes w) = Ret tt
      /\ yielded (_save_group_welcomes w) = [])
  /\ (outcome_of (handle_group_increase ev w) = Ret tt
      /\ (List.length (yielded (handle_group_increase ev w)) <= 1)%nat)
  /\ (outcome_of (set_welcome ev text w) = Ret tt
      /\ List.length (yielded (set_welcome ev text w)) = 1%nat)
  /\ (outcome_of (view_welcome ev w) = Ret tt
      /\ List.length (yielded (view_welcome ev w)) = 1%nat).
Proof.
  rewrite initialize_spec, terminate_spec, load_spec, save_spec,
    handle_group_increase_spec, set_welcome_spec, view_welcome_spec.
  repeat split; try reflexivity.
  - now destruct (can_mkdir (fs w)).
  - now destruct (can_mkdir (fs w)).
  - destruct (payload ev); [|reflexivity].
    destruct (is_group_increase _); [|reflexivity]. cbv zeta.
    destruct (py_int _); [|reflexivity].
    destruct (negb _ || _); [reflexivity|].
    now destruct (py_get _ _ _).
  - destruct (payload ev); [|simpl; lia].
    destruct (is_group_increase _); [|simpl; lia]. cbv zeta.
    destruct (py_int _); [|simpl; lia].
    destruct (negb _ || _); [simpl; lia|].
    destruct (py_get _ _ _); simpl; lia.
  - destruct (negb (str_truthy _)); [reflexivity|].
    destruct (negb (pystr_eqb _ _)); [reflexivity|].
    destruct (negb (str_truthy _)); [reflexivity|].
    now destruct (py_setitem _ _ _).
  - destruct (negb (str_truthy _)); [reflexivity|].
    destruct (negb (pystr_eqb _ _)); [reflexivity|].
    destruct (negb (str_truthy _)); [reflexivity|].
    now destruct (py_setitem _ _ _).
  - destruct (negb (str_truthy _)); [reflexivity|].
    destruct (negb (pystr_eqb _ _)); [reflexivity|].
    now destruct (py_get _ _ _).
  - destruct (negb (str_truthy _)); [reflexivity|].
    destruct (negb (pystr_eqb _ _)); [reflexivity|].
    now destruct (py_get _ _ _).
Qed.

(** ** [initialize] *)

(** X2: When the data directory cannot be created, [initialize] does not read
    the data file: a plugin that starts on such a disk has an empty
    mapping whatever the file holds, leaves the disk alone and logs the
    failure. *)
Theorem initialize_without_directory (default : pystr) (d : disk) :
  can_mkdir d = false ->
  group_welcomes (world_of (initialize (init default d))) = JObj []
  /\ fs (world_of (initialize (init default d))) = d
  /\ log (world_of (initialize (init default d)))
     = [(ERROR, LogInitFailed OSError)].
Proof.
  intros H. rewrite initialize_spec.
  cbn [fs init]. rewrite H. repeat split.
Qed.

(** ** [set_welcome] *)

(** X3: For an administrator inside a group, the validation message is the
    answer exactly when every character of the text is white space (the
    empty text included). *)
Theorem blank_iff_all_whitespace (ev : event) (text : pystr) (w : world) :
  in_group ev -> is_admin ev ->
  (yielded (set_welcome ev text w) = [plain_result MSG_EMPTY]
   <-> forallb py_isspace text = true).
Proof.
  intros Hg Ha. rewrite set_welcome_spec.
  apply str_truthy_true in Hg. rewrite Hg.
  unfold is_admin in Ha. rewrite Ha, pystr_eqb_refl. cbn [negb].
  rewrite <- strip_nil.
  destruct (strip text) as [|c r] eqn:Es; cbn [str_truthy negb].
  - split; reflexivity.
  - split; [|discriminate].
    destruct (py_setitem _ _ _); intros H; injection H as H;
      vm_compute in H; discriminate H.
Qed.

(** X4: When the disk refuses writes, what a set command changes in memory is
    lost by a restart: the plugin restarts as if the command had not been
    given. *)
Theorem unwritten_set_lost_on_restart
  (ev : event) (text default : pystr) (w : world) :
  can_write (fs w) = false ->
  fs (world_of (set_welcome ev text w)) = fs w
  /\ restarted default (world_of (set_welcome ev text w))
     = restarted default w.
Proof.
  intros Hw.
  assert (H : fs (world_of (set_welcome ev text w)) = fs w).
  { rewrite set_welcome_spec.
    destruct (negb (str_truthy _)); [reflexivity|].
    destruct (negb (pystr_eqb _ _)); [reflexivity|].
    destruct (negb (str_truthy _)); [reflexivity|].
    destruct (py_setitem _ _ _); [|reflexivity].
    unfold world_of. cbn [fst snd fs with_log].
    now rewrite saved_unwritable. }
  split; [exact H|]. unfold restarted. now rewrite H.
Qed.

(** ** A value that is not a dictionary *)

(** X5: If the in-memory value is not a dictionary (a data file that holds an
    array has been loaded), nothing crashes: a valid set command is
    answered with the failure message of a [TypeError], a view command
    with that of an [AttributeError], and a join notice is logged and not
    answered; the value stays as it is. *)
Theorem not_a_dictionary (ev join : event) (text g : pystr) (uid : Z)
  (w : world) :
  (forall d, group_welcomes w <> JObj d) ->
  in_group ev -> is_admin ev -> nonblank text ->
  join_shape join g uid ->
  set_welcome ev text w
  = (Ret tt, with_log w ERROR (LogSetFailed TypeError),
     [plain_result (MSG_SET_FAILED ++ exn_message TypeError)])
  /\ view_welcome ev w
     = (Ret tt, with_log w ERROR (LogViewFailed AttributeError),
        [plain_result (MSG_VIEW_FAILED ++ exn_message AttributeError)])
  /\ handle_group_increase join w
     = (Ret tt, with_log w ERROR (LogJoinFailed AttributeError), []).
Proof.
  intros Hnd Hg Ha Hn Hj.
  rewrite set_welcome_spec, view_welcome_spec, (handle_join_shape _ Hj).
  apply str_truthy_true in Hg. rewrite Hg.
  unfold is_admin in Ha. rewrite Ha, pystr_eqb_refl.
  apply str_truthy_true in Hn. rewrite Hn. cbn [negb].
  destruct (group_welcomes w) as [| | | | | |d] eqn:E;
    try (repeat split; reflexivity).
  exfalso. now apply (Hnd d).
Qed.

(** ** [handle_group_increase] *)

(** X6: The handler sees every message of the platform.  On an event whose
    payload is not a notice of a group increase it does nothing at all: no
    result, no log entry, no change, whatever else the payload holds. *)
Theorem other_events_leave_no_trace (ev : event) (w : world) :
  (forall mo raw,
     message_obj ev = Some mo -> raw_message mo = Some (JObj raw) ->
     dict_lookup raw (u "post_type") <> Some (JStr (u "notice"))
     \/ dict_lookup raw (u "notice_type")
        <> Some (JStr (u "group_increase"))) ->
  handle_group_increase ev w = (Ret tt, w, []).
Proof.
  intros H. rewrite handle_group_increase_spec.
  destruct (payload ev) as [raw|] eqn:Ep; [|reflexivity].
  apply payload_some in Ep as (mo & Hmo & Hraw & _).
  destruct (is_group_increase raw) eqn:Ei; [exfalso|reflexivity].
  unfold is_group_increase in Ei. apply andb_true_iff in Ei as [E1 E2].
  apply eq_str_dict_get in E1, E2.
  destruct (H mo raw Hmo Hraw) as [Hc|Hc]; now apply Hc.
Qed.

(** X7: Before [initialize] has run, a new plugin answers every join with the
    default text, whatever the data file holds. *)
Theorem fresh_plugin_uses_default
  (ev : event) (g default : pystr) (uid : Z) (d : disk) :
  join_shape ev g uid ->
  yielded (handle_group_increase ev (init default d))
  = [chain_result [At uid; Plain (c_space :: default)]].
Proof. intros Hj. rewrite (handle_join_shape _ Hj). reflexivity. Qed.

(** ** [view_welcome] *)

(** X8: The view command only reads: in a reachable state it changes nothing,
    not even the log, and what an administrator inside a group is shown is
    the text the join handler would send. *)
Theorem view_is_read_only (ev : event) (w : world) :
  reachable w ->
  world_of (view_welcome ev w) = w
  /\ (in_group ev -> is_admin ev ->
      exists text,
        get_welcome (get_group_id ev) w = (Ret (JStr text), w, [])
        /\ yielded (view_welcome ev w) = [plain_result (MSG_CURRENT ++ text)]).
Proof.
  intros Hr. destruct (reachable_inv Hr) as [(l & Hl & _) _].
  rewrite view_welcome_spec.
  unfold get_welcome, bind, get_world, lift. rewrite Hl. cbn [py_get].
  split.
  - destruct (negb (str_truthy _)); [reflexivity|].
    now destruct (negb (pystr_eqb _ _)).
  - intros Hg Ha. apply str_truthy_true in Hg. rewrite Hg.
    unfold is_admin in Ha. rewrite Ha, pystr_eqb_refl. cbn [negb].
    destruct (dict_get_of_strs l (get_group_id ev) (default_message w))
      as [t Ht].
    exists t. rewrite Ht. split; reflexivity.
Qed.

(** ** [_load_group_welcomes] and [_save_group_welcomes] *)

(** X9: Loading twice is loading once: the second load finds the same file and
    ends with the same value in memory. *)
Theorem load_idempotent (w : world) :
  group_welcomes
    (world_of (_load_group_welcomes (world_of (_load_group_welcomes w))))
  = group_welcomes (world_of (_load_group_welcomes w))
  /\ fs (world_of (_load_group_welcomes (world_of (_load_group_welcomes w))))
     = fs w.
Proof.
  rewrite !load_spec. unfold world_of. cbn [fst snd].
  assert (Hfs : fs (loaded w) = fs w).
  { unfold loaded. destruct (data_file (fs w)); [|reflexivity].
    destruct (can_read (fs w)); [|reflexivity].
    destruct (json_loads _); [|reflexivity].
    destruct (py_len _); reflexivity. }
  split.
  - unfold loaded at 1. rewrite Hfs. unfold loaded.
    destruct (data_file (fs w)); [|reflexivity].
    destruct (can_read (fs w)); [|reflexivity].
    destruct (json_loads _); [|reflexivity].
    destruct (py_len _); reflexivity.
  - unfold loaded at 1. rewrite Hfs.
    destruct (data_file (fs w)); [|exact Hfs].
    destruct (can_read (fs w)); [|exact Hfs].
    destruct (json_loads _); [|exact Hfs].
    destruct (py_len _); exact Hfs.
Qed.

(** X10: Saving never changes the value in memory.  When the file can be
    opened it is rewritten from scratch: what it holds afterwards does not
    depend on what it held before.  When it cannot, the disk is left as it
    was. *)
Theorem save_overwrites (w : world) (before : option pystr) :
  group_welcomes (world_of (_save_group_welcomes w)) = group_welcomes w
  /\ (can_write (fs w) = true ->
      data_file (fs (world_of (_save_group_welcomes (with_file w before))))
      = data_file (fs (world_of (_save_group_welcomes w))))
  /\ (can_write (fs w) = false ->
      fs (world_of (_save_group_welcomes w)) = fs w).
Proof.
  rewrite !save_spec. unfold world_of. cbn [fst snd].
  split; [apply group_welcomes_saved|]. split.
  - intros Hw. rewrite !saved_data_file. cbn [fs with_file can_write].
    now rewrite Hw.
  - apply saved_unwritable.
Qed.


(** ** Persistence across restarts *)

Lemma mapping_encodable_of_strs (l : list (pystr * pystr)) :
  mapping_encodable (JObj (of_strs l))
  = forallb (fun kv => encodable (fst kv) && encodable (snd kv)) l.
Proof.
  simpl. induction l as [|[k v] l IH]; simpl; [reflexivity|].
  now rewrite IH.
Qed.

Lemma mapping_encodable_str_setitem (l : list (pystr * pystr)) (k v : pystr) :
  mapping_encodable (JObj (of_strs l)) = true ->
  encodable k = true -> encodable v = true ->
  mapping_encodable (JObj (of_strs (str_setitem l k v))) = true.
Proof.
  rewrite !mapping_encodable_of_strs. intros Hl Hk Hv.
  induction l as [|[k' v'] l IH]; simpl in *.
  - now rewrite Hk, Hv.
  - apply andb_true_iff in Hl as [Hkv Hl].
    apply andb_true_iff in Hkv as [Hk' Hv'].
    destruct (pystr_eqb k k'); simpl.
    + now rewrite Hk', Hv, Hl.
    + now rewrite Hk', Hv', IH.
Qed.

(** A restart only looks at the disk. *)
Lemma restarted_fs (default : pystr) (w w' : world) :
  fs w = fs w' -> restarted default w = restarted default w'.
Proof. unfold restarted. now intros ->. Qed.

(** After a save that went through, a restart finds the mapping again. *)
Lemma saved_then_restarted (default : pystr) (w : world) :
  inv w ->
  can_mkdir (fs w) = true -> can_read (fs w) = true ->
  can_write (fs w) = true ->
  mapping_encodable (group_welcomes w) = true ->
  group_welcomes (restarted default (saved w)) = group_welcomes w.
Proof.
  intros [(l & Hl & Hd & _) _] Hm Hr Hw He.
  destruct (saved_flags w) as (Fm & Fr & _).
  unfold restarted. rewrite initialize_spec. cbn [fs init].
  rewrite Fm, Hm. unfold world_of. cbn [fst snd group_welcomes with_log].
  unfold loaded. cbn [fs init]. rewrite saved_data_file, Hw, Fr, Hr, Hl.
  rewrite Hl in He. apply mapping_encodable_strs, written_strs_ok in He.
  rewrite written_all by assumption.
  fold (json_dumps (JObj (of_strs l))).
  rewrite json_loads_dumps_strs by assumption.
  reflexivity.
Qed.

(** A valid set command in a reachable state, spelled out. *)
Lemma valid_set (ev : event) (text : pystr) (w : world) :
  reachable w -> in_group ev -> is_admin ev -> nonblank text ->
  exists l,
    group_welcomes w = JObj (of_strs l)
    /\ inv (with_group_welcomes w
              (JObj (of_strs (str_setitem l (get_group_id ev) text))))
    /\ set_welcome ev text w
       = (Ret tt,
          with_log
            (saved (with_group_welcomes w
                      (JObj (of_strs (str_setitem l (get_group_id ev) text)))))
            INFO (LogWelcomeSet (get_group_id ev)),
          [plain_result (MSG_SET_OK ++ text)]).
Proof.
  intros Hr Hg Ha Hn.
  destruct (reachable_inv Hr) as [(l & Hl & Hd & Hf) Hfile].
  exists l. split; [exact Hl|]. split.
  - split; [|exact Hfile]. cbn [group_welcomes with_group_welcomes].
    rewrite <- of_strs_setitem. now apply good_store_setitem.
  - rewrite set_welcome_spec.
    apply str_truthy_true in Hg. rewrite Hg.
    unfold is_admin in Ha. rewrite Ha, pystr_eqb_refl.
    apply str_truthy_true in Hn. rewrite Hn. cbn [negb].
    rewrite Hl. cbn [py_setitem]. now rewrite of_strs_setitem.
Qed.

Lemma dict_get_str_setitem_same (l : list (pystr * pystr)) (k v : pystr)
  (default : json) :
  dict_get (of_strs (str_setitem l k v)) k default = JStr v.
Proof. rewrite <- of_strs_setitem. apply dict_get_setitem_same. Qed.

(** X11: A text that was set and written survives a restart: when the disk
    works and neither the mapping, the group identifier nor the text holds
    a surrogate, the plugin that restarts and initializes has the same
    mapping, and the lookup for the group returns the text. *)
Theorem set_welcome_survives_restart
  (ev : event) (text default : pystr) (w : world) :
  reachable w -> in_group ev -> is_admin ev -> nonblank text ->
  can_mkdir (fs w) = true -> can_read (fs w) = true ->
  can_write (fs w) = true ->
  mapping_encodable (group_welcomes w) = true ->
  encodable (get_group_id ev) = true -> encodable text = true ->
  group_welcomes (restarted default (world_of (set_welcome ev text w)))
  = group_welcomes (world_of (set_welcome ev text w))
  /\ outcome_of (get_welcome (get_group_id ev)
                   (restarted default (world_of (set_welcome ev text w))))
     = Ret (JStr text).
Proof.
  intros Hr Hg Ha Hn Hm Hrd Hw He Hek Het.
  destruct (valid_set Hr Hg Ha Hn) as (l & Hl & Hinv & Hset).
  rewrite Hset. unfold world_of. cbn [fst snd].
  set (w' := with_group_welcomes w _) in *.
  assert (Hrest : group_welcomes (restarted default (saved w'))
                  = group_welcomes w').
  { apply saved_then_restarted; try assumption.
    subst w'. cbn [group_welcomes with_group_welcomes].
    apply mapping_encodable_str_setitem; try assumption.
    now rewrite <- Hl. }
  rewrite (@restarted_fs default (with_log (saved w') INFO
                                        (LogWelcomeSet (get_group_id ev)))
                          (saved w') eq_refl).
  cbn [group_welcomes with_log]. rewrite group_welcomes_saved.
  split; [exact Hrest|].
  unfold get_welcome, bind, get_world, lift, outcome_of.
  rewrite Hrest. subst w'. cbn [group_welcomes with_group_welcomes py_get fst].
  now rewrite dict_get_str_setitem_same.
Qed.

(** X12: [terminate] writes the mapping: when the disk works and the mapping
    holds no surrogate, the plugin that restarts and initializes after it
    has the same mapping. *)
Theorem terminate_then_restart (default : pystr) (w : world) :
  reachable w ->
  can_mkdir (fs w) = true -> can_read (fs w) = true ->
  can_write (fs w) = true ->
  mapping_encodable (group_welcomes w) = true ->
  group_welcomes (restarted default (world_of (terminate w)))
  = group_welcomes w.
Proof.
  intros Hr Hm Hrd Hw He. rewrite terminate_spec.
  unfold world_of. cbn [fst snd].
  rewrite (@restarted_fs default (with_log (saved w) INFO LogTerminated)
                          (saved w) eq_refl).
  apply saved_then_restarted; try assumption. now apply reachable_inv.
Qed.

(** ** What a set command changes *)

Lemma keys_str_setitem (l : list (pystr * pystr)) (k v : pystr) :
  (In k (map fst l) -> map fst (str_setitem l k v) = map fst l)
  /\ (~ In k (map fst l) -> map fst (str_setitem l k v) = map fst l ++ [k]).
Proof.
  induction l as [|[k' v'] l [IH1 IH2]]; simpl.
  - split; [intros []|reflexivity].
  - destruct (pystr_eqb k k') eqn:E; simpl.
    + apply pystr_eqb_eq in E. subst k'. split; [reflexivity|].
      intros H. exfalso. apply H. now left.
    + assert (k' <> k).
      { intros ->. rewrite pystr_eqb_refl in E. discriminate. }
      split.
      * intros [Hc|Hin]; [contradiction|]. now rewrite IH1.
      * intros Hn. rewrite IH2; [reflexivity|]. intros Hin. apply Hn.
        now right.
Qed.

Lemma dict_get_str_setitem_other (l : list (pystr * pystr)) (k k' v : pystr)
  (default : json) :
  k <> k' ->
  dict_get (of_strs (str_setitem l k v)) k' default
  = dict_get (of_strs l) k' default.
Proof.
  intros H. rewrite <- of_strs_setitem. unfold dict_get.
  now rewrite dict_lookup_setitem_other.
Qed.

(** X13: A valid set command touches one entry: the lookup of every other
    group returns what it returned before; a group that had a text keeps
    its place among the keys, a new group goes last. *)
Theorem set_welcome_one_entry (ev : event) (text : pystr) (w : world) :
  reachable w -> in_group ev -> is_admin ev -> nonblank text ->
  (forall g, g <> get_group_id ev ->
     outcome_of (get_welcome g (world_of (set_welcome ev text w)))
     = outcome_of (get_welcome g w))
  /\ (In (get_group_id ev) (stored_keys w) ->
      stored_keys (world_of (set_welcome ev text w)) = stored_keys w)
  /\ (~ In (get_group_id ev) (stored_keys w) ->
      stored_keys (world_of (set_welcome ev text w))
      = stored_keys w ++ [get_group_id ev]).
Proof.
  intros Hr Hg Ha Hn.
  destruct (valid_set Hr Hg Ha Hn) as (l & Hl & _ & Hset).
  rewrite Hset. unfold world_of, stored_keys. cbn [fst snd].
  cbn [group_welcomes with_log]. rewrite group_welcomes_saved, Hl.
  cbn [group_welcomes with_group_welcomes]. rewrite !keys_of_strs.
  split; [|apply keys_str_setitem].
  intros g Hne. unfold get_welcome, bind, get_world, lift, outcome_of.
  cbn [group_welcomes default_message with_log fst].
  rewrite group_welcomes_saved, default_message_saved, Hl.
  cbn [group_welcomes default_message with_group_welcomes py_get].
  rewrite dict_get_str_setitem_other; [reflexivity|]. congruence.
Qed.

(** X14: After a valid set command, a member who joins the group is greeted
    with a mention, one space and the text as it was given. *)
Theorem set_then_join (ev join : event) (text : pystr) (uid : Z) (w : world) :
  reachable w -> in_group ev -> is_admin ev -> nonblank text ->
  join_shape join (get_group_id ev) uid ->
  yielded (handle_group_increase join (world_of (set_welcome ev text w)))
  = [chain_result [At uid; Plain (c_space :: text)]].
Proof.
  intros Hr Hg Ha Hn Hj.
  destruct (valid_set Hr Hg Ha Hn) as (l & Hl & _ & Hset).
  rewrite (handle_join_shape _ Hj), Hset. unfold world_of. cbn [fst snd].
  cbn [group_welcomes default_message with_log].
  rewrite group_welcomes_saved.
  cbn [group_welcomes with_group_welcomes py_get].
  now rewrite dict_get_str_setitem_same.
Qed.

(** ** The codec *)


Lemma written_ok_chunks (chunks : list pystr) :
  snd (written chunks) = true -> forallb encodable chunks = true.
Proof.
  induction chunks as [|c r IH]; [reflexivity|].
  rewrite written_cons. simpl. destruct (encodable c); [exact IH|discriminate].
Qed.

Lemma members_encodable (enc : json -> list pystr)
  (l : list (pystr * pystr)) (first : bool) (tail : list pystr) :
  forallb encodable (_iterencode_dict enc 1 (of_strs l) first ++ tail) = true ->
  forallb (fun kv => encodable (fst kv) && encodable (snd kv)) l = true.
Proof.
  revert first. induction l as [|[k v] l IH]; intros first; [reflexivity|].
  cbn [of_strs map _iterencode_dict fst snd scalar_text].
  fold (of_strs l). rewrite <- !app_assoc, forallb_app. cbn [app forallb].
  rewrite !encodable_encode_basestring.
  intros H. apply andb_true_iff in H as [_ H].
  apply andb_true_iff in H as [Hk H].
  apply andb_true_iff in H as [_ H].
  apply andb_true_iff in H as [Hv H].
  cbn [forallb fst snd]. rewrite Hk, Hv. cbn [andb]. exact (IH false H).
Qed.

Lemma written_unencodable (l : list (pystr * pystr)) :
  mapping_encodable (JObj (of_strs l)) = false ->
  snd (written (iterencode (JObj (of_strs l)) 0)) = false.
Proof.
  intros H. destruct (snd _) eqn:E; [|reflexivity].
  apply written_ok_chunks in E.
  destruct l as [|[k v] l]; [discriminate H|].
  rewrite mapping_encodable_of_strs in H.
  change (iterencode (JObj (of_strs ((k, v) :: l))) 0)
    with ([c_lbrace] :: newline_indent 1 ::
          _iterencode_dict (fun x => iterencode x 1) 1
            (of_strs ((k, v) :: l)) true
          ++ [newline_indent 0; [c_rbrace]]) in E.
  cbn [forallb] in E.
  apply andb_true_iff in E as [_ E]. apply andb_true_iff in E as [_ E].
  apply members_encodable in E. congruence.
Qed.

(** X16: When a key or a text holds a surrogate, the dump stops at it: the
    save is logged as failed, the file is left cut short, and a load then
    fails to decode it, is logged as failed and empties the mapping. *)
Theorem unencodable_mapping_is_lost (w : world) :
  reachable w ->
  can_write (fs w) = true -> can_read (fs w) = true ->
  mapping_encodable (group_welcomes w) = false ->
  group_welcomes (world_of (save_then_load w)) = JObj []
  /\ log (world_of (save_then_load w))
     = log w ++ [(ERROR, LogSaveFailed UnicodeEncodeError);
                 (ERROR, LogLoadFailed JSONDecodeError)].
Proof.
  intros Hr Hw Hrd He.
  destruct (reachable_inv Hr) as [(l & Hl & _) _].
  unfold save_then_load, bind. rewrite save_spec, load_spec.
  unfold world_of. cbn [fst snd].
  rewrite Hl in He. pose proof (written_unencodable _ He) as Hbad.
  assert (Hs : saved w
               = with_log
                   (with_file w
                      (Some (fst (written (iterencode (JObj (of_strs l)) 0)))))
                   ERROR (LogSaveFailed UnicodeEncodeError)).
  { unfold saved. now rewrite Hw, Hl, Hbad. }
  rewrite Hs. unfold loaded. cbn [fs data_file can_read with_log with_file].
  rewrite Hrd, json_loads_partial by assumption.
  cbn [group_welcomes log with_log with_group_welcomes].
  split; [reflexivity|]. now rewrite <- app_assoc.
Qed.

(** ** The identifiers of a join notice *)

(** X17: A notice of a group increase whose member identifier cannot be turned
    into an integer is not answered: the exception is logged and nothing
    else changes. *)
Theorem malformed_member_id_logged
  (ev : event) (mo : message_object) (raw : dict) (e : exn) (w : world) :
  message_obj ev = Some mo -> raw_message mo = Some (JObj raw) ->
  dict_lookup raw (u "post_type") = Some (JStr (u "notice")) ->
  dict_lookup raw (u "notice_type") = Some (JStr (u "group_increase")) ->
  py_int (dict_get raw (u "user_id") (JInt 0)) = Raise e ->
  handle_group_increase ev w
  = (Ret tt, with_log w ERROR (LogJoinFailed e), []).
Proof.
  intros Hmo Hraw Hpt Hnt He. rewrite handle_group_increase_spec.
  assert (Hp : payload ev = Some raw).
  { apply payload_some. exists mo. repeat split; try assumption.
    intros ->. discriminate Hpt. }
  rewrite Hp. unfold is_group_increase.
  rewrite (proj2 (eq_str_dict_get raw (u "post_type") (u "notice")) Hpt).
  rewrite (proj2 (eq_str_dict_get raw (u "notice_type")
                                  (u "group_increase")) Hnt).
  cbv zeta. cbn [andb]. now rewrite He.
Qed.

(** X18: A notice of a group increase that has no [user_id], or that has no
    [group_id] and a [user_id] that is an integer, is dropped without a
    result and without a log entry: the defaults [0] and [""] of the two
    lookups make the handler return. *)
Theorem missing_ids_ignored
  (ev : event) (mo : message_object) (raw : dict) (w : world) :
  message_obj ev = Some mo -> raw_message mo = Some (JObj raw) ->
  dict_lookup raw (u "user_id") = None
  \/ (dict_lookup raw (u "group_id") = None
      /\ exists uid, py_int (dict_get raw (u "user_id") (JInt 0)) = Ret uid) ->
  handle_group_increase ev w = (Ret tt, w, []).
Proof.
  intros Hmo Hraw H. rewrite handle_group_increase_spec.
  destruct (payload ev) as [raw'|] eqn:Ep; [|reflexivity].
  apply payload_some in Ep as (mo' & Hmo' & Hraw' & _).
  rewrite Hmo in Hmo'. injection Hmo' as <-.
  rewrite Hraw in Hraw'. injection Hraw' as <-.
  destruct (is_group_increase raw); [|reflexivity]. cbv zeta.
  destruct H as [Hu|[Hg (uid & Hu)]].
  - replace (dict_get raw (u "user_id") (JInt 0)) with (JInt 0)
      by (unfold dict_get; now rewrite Hu).
    cbn [py_int]. change (0 =? 0)%Z with true. now rewrite orb_true_r.
  - rewrite Hu.
    replace (dict_get raw (u "group_id") (JStr [])) with (JStr [])
      by (unfold dict_get; now rewrite Hg).
    reflexivity.
Qed.

Lemma uint_chars_inj (d d' : Decimal.uint) :
  uint_chars d = uint_chars d' -> d = d'.
Proof.
  revert d'. induction d; destruct d'; simpl; intros H;
    try discriminate H; try reflexivity;
    injection H as H; f_equal; auto.
Qed.

Lemma uint_chars_not_minus (d : Decimal.uint) (r : pystr) :
  uint_chars d <> c_minus :: r.
Proof. destruct d; simpl; intros H; discriminate H. Qed.

(** X19: The identifier of an integer [group_id] is its decimal numeral:
    different integers give different identifiers, so that two groups
    never share an entry of the mapping. *)
Theorem integer_group_ids_distinct (a b : Z) :
  py_str (JInt a) = py_str (JInt b) -> a = b.
Proof.
  cbn [py_str]. destruct a as [|p|p], b as [|q|q]; cbn [intstr]; intros H;
    try reflexivity; try discriminate H.
  - exfalso. apply (DecimalPos.Unsigned.to_uint_nonzero q).
    apply uint_chars_inj. now rewrite <- H.
  - exfalso. apply (DecimalPos.Unsigned.to_uint_nonzero p).
    apply uint_chars_inj. now rewrite H.
  - f_equal. now apply DecimalPos.Unsigned.to_uint_inj, uint_chars_inj.
  - exfalso. now apply uint_chars_not_minus in H.
  - exfalso. symmetry in H. now apply uint_chars_not_minus in H.
  - injection H as H. f_equal.
    now apply DecimalPos.Unsigned.to_uint_inj, uint_chars_inj.
Qed.

End Extras.

(** ** These properties on concrete worlds *)

Lemma initialize_without_directory_witness :
  data_file no_directory_disk <> None
  /\ group_welcomes (world_of (initialize (init (u "Welcome!")
                                               no_directory_disk)))
     = JObj [].
Proof.
  split; [intros H; vm_compute in H; discriminate H|].
  exact (proj1 (@initialize_without_directory (u "Welcome!")
                                              no_directory_disk eq_refl)).
Defined.

Lemma blank_iff_all_whitespace_witness :
  yielded (set_welcome (rt := sample_runtime) admin_command
                       [c_space; 0x3000; c_newline] fresh_world)
  = [plain_result MSG_EMPTY].
Proof.
  refine (proj2 (@blank_iff_all_whitespace sample_runtime admin_command
                   [c_space; 0x3000; c_newline] fresh_world _ _) eq_refl).
  - intros H. vm_compute in H. discriminate H.
  - reflexivity.
Defined.

Lemma unwritten_set_lost_on_restart_witness :
  restarted (u "Welcome!")
            (world_of (set_welcome (rt := sample_runtime) admin_command
                                   (u "Hi there") readonly_world))
  = restarted (u "Welcome!") readonly_world.
Proof.
  exact (proj2 (@unwritten_set_lost_on_restart sample_runtime admin_command
                  (u "Hi there") (u "Welcome!") readonly_world eq_refl)).
Defined.

Lemma not_a_dictionary_witness :
  group_welcomes array_loaded_world = JArr [JInt 1]
  /\ yielded (set_welcome (rt := sample_runtime) admin_command (u "Hi there")
                          array_loaded_world)
     = [plain_result (MSG_SET_FAILED ++ u "TypeError")]
  /\ yielded (handle_group_increase (rt := sample_runtime)
                (join_event (JInt 100) (JInt 12345)) array_loaded_world)
     = [].
Proof.
  destruct (@not_a_dictionary sample_runtime admin_command
              (join_event (JInt 100) (JInt 12345)) (u "Hi there") (u "100")
              12345%Z array_loaded_world) as (Hs & _ & Hj).
  - intros d H. vm_compute in H. discriminate H.
  - intros H. vm_compute in H. discriminate H.
  - reflexivity.
  - intros H. vm_compute in H. discriminate H.
  - eexists _, _. repeat split; try reflexivity; discriminate.
  - split; [reflexivity|]. split; [now rewrite Hs | now rewrite Hj].
Defined.

Lemma other_events_leave_no_trace_witness :
  handle_group_increase (rt := sample_runtime) message_event greeted_world
  = (Ret tt, greeted_world, []).
Proof.
  apply (@other_events_leave_no_trace sample_runtime).
  intros mo raw Hmo Hraw. injection Hmo as <-. injection Hraw as <-.
  left. intros H. vm_compute in H. discriminate H.
Defined.

Lemma fresh_plugin_uses_default_witness :
  data_file (fs greeted_world) <> None
  /\ yielded (handle_group_increase (rt := sample_runtime)
                (join_event (JInt 100) (JInt 12345))
                (init (u "Welcome!") (fs greeted_world)))
     = [chain_result [At 12345; Plain (u " Welcome!")]].
Proof.
  split; [intros H; vm_compute in H; discriminate H|].
  apply (@fresh_plugin_uses_default sample_runtime
           (join_event (JInt 100) (JInt 12345)) (u "100")).
  eexists _, _. repeat split; try reflexivity; discriminate.
Defined.

Lemma view_is_read_only_witness :
  world_of (view_welcome (rt := sample_runtime) admin_command greeted_world)
  = greeted_world.
Proof.
  exact (proj1 (@view_is_read_only sample_runtime admin_command greeted_world
                  greeted_world_reachable)).
Defined.

Lemma save_overwrites_witness :
  data_file (fs (world_of (_save_group_welcomes (rt := sample_runtime)
                             (with_file greeted_world (Some (u "stale"))))))
  = data_file (fs (world_of (_save_group_welcomes (rt := sample_runtime)
                               greeted_world))).
Proof.
  exact (proj1 (proj2 (@save_overwrites sample_runtime greeted_world
                         (Some (u "stale")))) eq_refl).
Defined.

Lemma set_welcome_survives_restart_witness :
  outcome_of (get_welcome (u "100") (restarted (u "Welcome!") greeted_world))
  = Ret (JStr (u "Hi there")).
Proof.
  refine (proj2 (@set_welcome_survives_restart sample_runtime admin_command
                   (u "Hi there") (u "Welcome!") fresh_world
                   fresh_world_reachable _ eq_refl _
                   eq_refl eq_refl eq_refl eq_refl eq_refl eq_refl)).
  - intros H. vm_compute in H. discriminate H.
  - intros H. vm_compute in H. discriminate H.
Defined.

Lemma terminate_then_restart_witness :
  group_welcomes (restarted (u "Welcome!")
                    (world_of (terminate (rt := sample_runtime) greeted_world)))
  = group_welcomes greeted_world.
Proof.
  exact (@terminate_then_restart sample_runtime (u "Welcome!") greeted_world
           greeted_world_reachable eq_refl eq_refl eq_refl eq_refl).
Defined.

Lemma set_welcome_one_entry_witness :
  stored_keys (world_of (set_welcome (rt := sample_runtime)
                           other_admin_command (u "Hello") greeted_world))
  = [u "100"; u "200"]
  /\ outcome_of (get_welcome (u "100")
                   (world_of (set_welcome (rt := sample_runtime)
                                other_admin_command (u "Hello") greeted_world)))
     = Ret (JStr (u "Hi there")).
Proof.
  destruct (@set_welcome_one_entry sample_runtime other_admin_command
              (u "Hello") greeted_world greeted_world_reachable)
    as (Hother & _ & Hnew).
  - intros H. vm_compute in H. discriminate H.
  - reflexivity.
  - intros H. vm_compute in H. discriminate H.
  - split.
    + rewrite Hnew; [reflexivity|].
      intros [H|[]]. vm_compute in H. discriminate H.
    + rewrite Hother; [reflexivity|].
      intros H. vm_compute in H. discriminate H.
Defined.

Lemma set_then_join_witness :
  yielded (handle_group_increase (rt := sample_runtime)
             (join_event (JInt 100) (JInt 12345)) greeted_world)
  = [chain_result [At 12345; Plain (u " Hi there")]].
Proof.
  refine (@set_then_join sample_runtime admin_command
            (join_event (JInt 100) (JInt 12345)) (u "Hi there") 12345%Z
            fresh_world fresh_world_reachable _ eq_refl _ _).
  - intros H. vm_compute in H. discriminate H.
  - intros H. vm_compute in H. discriminate H.
  - eexists _, _. repeat split; try reflexivity; discriminate.
Defined.


Lemma unencodable_mapping_is_lost_witness :
  group_welcomes (world_of (save_then_load (rt := sample_runtime)
                                           surrogate_world))
  = JObj [].
Proof.
  exact (proj1 (@unencodable_mapping_is_lost sample_runtime surrogate_world
                  surrogate_world_reachable eq_refl eq_refl eq_refl)).
Defined.

Lemma malformed_member_id_logged_witness :
  handle_group_increase (rt := sample_runtime) broken_join_event fresh_world
  = (Ret tt, with_log fresh_world ERROR (LogJoinFailed TypeError), []).
Proof.
  exact (@malformed_member_id_logged sample_runtime broken_join_event _ _
           TypeError fresh_world eq_refl eq_refl eq_refl eq_refl eq_refl).
Defined.

Lemma missing_ids_ignored_witness :
  handle_group_increase (rt := sample_runtime) anonymous_join_event
                        greeted_world
  = (Ret tt, greeted_world, []).
Proof.
  exact (@missing_ids_ignored sample_runtime anonymous_join_event _ _
           greeted_world eq_refl eq_refl (or_introl eq_refl)).
Defined.

Lemma integer_group_ids_distinct_witness : (100 = 100)%Z.
Proof.
  exact (@integer_group_ids_distinct sample_runtime 100 100 eq_refl).
Defined.
